(** * IoT-LAB cli-tools: the experiment model of [iotlabcli/experiment.py]

    A shallow embedding of the experiment resource model (alias groups,
    the [_Experiment] builder, its association maps and its canonical
    description) and of the state poller [wait_state], followed by the
    properties established about them.

    Python values are embedded as follows: [str] is [string], [int] is
    [Z], [None]-able attributes are [option], the built-in [set] of
    strings is [gset string], a [dict] keyed by association type is a
    [gmap string _], and a raised exception is the [Raise] outcome of
    [result].  An exception ends the operation it is raised in: what the
    attributes of an object look like after a raise is not modelled. *)

From stdpp Require Import base option list strings gmap sorting pretty.
From Stdlib Require Import ZArith Ascii.

Local Open Scope Z_scope.

(** ** Exceptions and outcomes *)

(** The exceptions raised by the module.  Every [ValueError] and
    [RuntimeError] of the source has a constructor of its own that keeps
    the data the message is formatted from. *)
Inductive error : Type :=
  | ValueError_archi (archi : string)
      (* "%r not in %r" % (archi, ARCHIS) *)
  | ValueError_type
      (* "Invalid experiment, should be only physical or only alias" *)
  | ValueError_multiple (nodes : list string)
      (* "Nodes specified multiple times {0}" *)
  | ValueError_conflict (assoctype : string) (nodes : list string)
      (* a node associated under two values of one association type *)
  | ValueError_state (states_str : string)
      (* a state outside the vocabulary of scheduler states *)
  | KeyError (key : string)
  | TypeError
  | AttributeError
  | RuntimeError_state (exp_str state : string)
      (* "Experiment {0} already in state '{1!s}'" *)
  | RuntimeError_timeout.
      (* 'Timeout reached' *)

Inductive result (A : Type) : Type :=
  | Ok (a : A)
  | Raise (e : error).
Arguments Ok {A} a.
Arguments Raise {A} e.

Global Instance result_bind : MBind result := λ A B f r,
  match r with
  | Ok a => f a
  | Raise e => Raise e
  end.

Global Instance result_fmap : FMap result := λ A B f r,
  match r with
  | Ok a => Ok (f a)
  | Raise e => Raise e
  end.

Definition is_ok {A : Type} (r : result A) : bool :=
  match r with Ok _ => true | Raise _ => false end.

(** ** Architecture patterns ([AliasNodes.ARCHIS], [AliasNodes.ARCHI_RE])

    The entries of [ARCHIS] are regular expressions.  The only regular
    expression syntax they use is the two-character sequence [.*]; every
    other character stands for itself. *)

Inductive atom : Type :=
  | Chr (c : ascii)   (* a literal character *)
  | AnyStar.          (* [.*]: any run of characters other than newline *)

Fixpoint parse_pattern (p : string) : list atom :=
  match p with
  | EmptyString => []
  | String "." (String "*" rest) => AnyStar :: parse_pattern rest
  | String c rest => Chr c :: parse_pattern rest
  end.

Definition newline : ascii := "010"%char.

(** [match_atoms p s]: does the pattern match at the beginning of [s]?
    This is the semantics of [re.match], which anchors the pattern at the
    start of the string and not at its end. *)
Fixpoint match_atoms (p : list atom) (s : string) {struct p} : bool :=
  match p with
  | [] => true
  | Chr c :: p' =>
      match s with
      | String c' s' => if Ascii.eqb c c' then match_atoms p' s' else false
      | EmptyString => false
      end
  | AnyStar :: p' =>
      (fix star (s : string) : bool :=
         match_atoms p' s
         || match s with
            | String c s' => if Ascii.eqb c newline then false else star s'
            | EmptyString => false
            end) s
  end.

Definition ARCHIS : list string :=
  ["wsn430:cc1101"; "wsn430:cc2420";
   "m3:at86rf231"; "a8:at86rf231";
   "des:wifi-cc1100"; "custom:.*"].

(** [ARCHI_RE = re.compile('|'.join('(%s)' % archi for archi in ARCHIS))]:
    the alternation of the parenthesised patterns. *)
Definition ARCHI_RE : list (list atom) := map parse_pattern ARCHIS.

Definition re_match (re : list (list atom)) (s : string) : bool :=
  existsb (λ p, match_atoms p s) re.

(** ** [AliasNodes] *)

Record Properties : Type := mkProperties {
  archi : string;
  site : string;
  mobile : bool
}.

Record AliasNodes : Type := mkAliasNodes {
  alias : string;
  nbnodes : Z;
  properties : Properties
}.

(** The value given for [_alias]: an integer or a string. *)
Inductive alias_arg : Type :=
  | AliasInt (n : Z)
  | AliasStr (s : string).

(** [str(alias)] *)
Definition str (a : alias_arg) : string :=
  match a with
  | AliasInt n => pretty n
  | AliasStr s => s
  end.

(** Initial value of the class attribute [AliasNodes._alias]. *)
Definition _alias_initial : Z := 0.

(** [AliasNodes._alias_uid]: the class attribute [_alias] is threaded as
    state; the result is the uid together with the new attribute value. *)
Definition _alias_uid (alias : option alias_arg) (cls_alias : Z) : string * Z :=
  match alias with
  | None =>
      let cls_alias := cls_alias + 1 in
      (str (AliasInt cls_alias), cls_alias)
  | Some a => (str a, cls_alias)
  end.

(** [AliasNodes._valid_archi] *)
Definition _valid_archi (archi : string) : bool := re_match ARCHI_RE archi.

(** [AliasNodes.__init__] *)
Definition AliasNodes_init (nbnodes : Z) (site archi : string) (mobile : bool)
    (_alias : option alias_arg) (cls_alias : Z) : result AliasNodes * Z :=
  if negb (_valid_archi archi) then (Raise (ValueError_archi archi), cls_alias)
  else
    let '(uid, cls_alias) := _alias_uid _alias cls_alias in
    (Ok {| alias := uid; nbnodes := nbnodes;
           properties := {| archi := archi; site := site; mobile := mobile |} |},
     cls_alias).

(** A construction request, and a run of requests against the shared
    counter, in program order. *)
Record request : Type := mkRequest {
  req_nbnodes : Z;
  req_site : string;
  req_archi : string;
  req_mobile : bool;
  req_alias : option alias_arg
}.

Fixpoint construct_all (reqs : list request) (cls_alias : Z)
    : list (request * result AliasNodes) * Z :=
  match reqs with
  | [] => ([], cls_alias)
  | r :: reqs' =>
      let '(res, cls_alias) :=
        AliasNodes_init (req_nbnodes r) (req_site r) (req_archi r)
                        (req_mobile r) (req_alias r) cls_alias in
      let '(rest, cls_alias) := construct_all reqs' cls_alias in
      ((r, res) :: rest, cls_alias)
  end.

(** The aliases handed out to the requests that gave no alias of their
    own, in program order. *)
Definition auto_aliases (out : list (request * result AliasNodes)) : list string :=
  omap (λ '(r, res),
          match req_alias r, res with
          | None, Ok a => Some (alias a)
          | _, _ => None
          end) out.

(** ** The state poller ([wait_state])

    The poller talks to two collaborators: the wall clock [time.time()]
    and the state function.  Both are oracles indexed by the number of
    calls made so far: [clock k] is the reading returned by the [k]-th
    call of [time.time()] (the float readings of the source are taken as
    whole numbers of clock ticks; [time.sleep] only shows through later
    readings), and [state_fct k] is the state returned by the [k]-th call
    of the state function. *)

(** Python's [s.split(sep)] for a one-character separator. *)
Fixpoint split (sep : ascii) (s : string) : list string :=
  match s with
  | EmptyString => [EmptyString]
  | String c rest =>
      if Ascii.eqb c sep then EmptyString :: split sep rest
      else match split sep rest with
           | word :: words => String c word :: words
           | [] => [String c EmptyString]
           end
  end.

(** Modelled from the spec: [helpers.check_experiment_state] is not part
    of the sources at hand.  Target states are a comma separated string
    "validated against a known vocabulary of scheduler states"; the
    vocabulary itself is a parameter. *)
Definition check_experiment_state (vocabulary : list string)
    (states_str : string) : result string :=
  if forallb (λ state, bool_decide (state ∈ vocabulary)) (split "," states_str)
  then Ok states_str
  else Raise (ValueError_state states_str).

(** [_states_from_str] *)
Definition _states_from_str (vocabulary : list string) (states_str : string)
    : result (list string) :=
  states_str ← check_experiment_state vocabulary states_str;
  Ok (split "," states_str).

(** [STOPPED_STATES = set(_states_from_str('Terminated,Error'))], the
    value the module-level assignment has whenever the module loads. *)
Definition STOPPED_STATES : gset string := list_to_set ["Terminated"; "Error"].

(** The [timeout] argument: a number of ticks or [float('+inf')]. *)
Inductive timeout_t : Type :=
  | Ticks (t : Z)
  | PlusInf.

(** [_timeout(start_time, timeout)], where [now] is the reading its call
    of [time.time()] returns. *)
Definition _timeout (now start_time : Z) (timeout : timeout_t) : bool :=
  match timeout with
  | Ticks t => bool_decide (now > start_time + t)
  | PlusInf => false
  end.

(** What a run of the poller amounts to: the state returned or the
    exception raised, and how many times the state function was called. *)
Record poll : Type := mkPoll {
  outcome : result string;
  calls : nat
}.

(** The [while] loop of [wait_state], entered for the iteration number
    [i] (so after [i] calls of the state function).  [fuel] bounds the
    number of iterations unfolded; [None] means the bound was reached. *)
Fixpoint wait_loop (clock : nat → Z) (state_fct : nat → string)
    (exp_str : string) (expected_states : gset string) (start_time : Z)
    (timeout : timeout_t) (fuel : nat) (i : nat) : option poll :=
  match fuel with
  | O => None
  | S fuel =>
      if _timeout (clock (S i)) start_time timeout then
        Some (mkPoll (Raise RuntimeError_timeout) i)
      else
        let state := state_fct i in
        if bool_decide (state ∈ expected_states) then
          Some (mkPoll (Ok state) (S i))
        else if bool_decide (state ∈ STOPPED_STATES) then
          Some (mkPoll (Raise (RuntimeError_state exp_str state)) (S i))
        else
          (* time.sleep(step) *)
          wait_loop clock state_fct exp_str expected_states start_time
                    timeout fuel (S i)
  end.

(** [wait_state] *)
Definition wait_state (vocabulary : list string) (clock : nat → Z)
    (state_fct : nat → string) (exp_str states : string) (step : Z)
    (timeout : timeout_t) (fuel : nat) : option poll :=
  match _states_from_str vocabulary states with
  | Raise e => Some (mkPoll (Raise e) 0)
  | Ok states =>
      let expected_states : gset string := list_to_set states in
      let start_time := clock 0%nat in
      wait_loop clock state_fct exp_str expected_states start_time timeout
                fuel 0
  end.

(** ** File associations *)

Definition NODES_ASSOCIATIONS_FILE_ASSOCS : list string := ["firmware"].

(** [str.rfind] for a one-character needle: the index of its last
    occurrence, or [-1]. *)
Fixpoint rfind (c : ascii) (s : string) : Z :=
  match s with
  | EmptyString => -1
  | String a rest =>
      let i := rfind c rest in
      if bool_decide (0 ≤ i) then i + 1
      else if Ascii.eqb a c then 0 else -1
  end.

(** [os.path.basename]: [i = p.rfind('/') + 1; return p[i:]]. *)
Definition basename (p : string) : string :=
  let i := Z.to_nat (rfind "/" p + 1) in
  String.substring i (String.length p - i) p.

(** [_basename_if_in], with [transform] at its default [basename]. *)
Definition _basename_if_in (value key : string) (container : list string)
    : string :=
  if bool_decide (key ∈ container) then basename value else value.

(** [nodes_association_name] *)
Definition nodes_association_name (assoctype assocname : string) : string :=
  _basename_if_in assocname assoctype NODES_ASSOCIATIONS_FILE_ASSOCS.

(** ** Node references and their ordering *)

(** [helpers.node_url_sort_key], the key [_NODESMAPKWARGS] and
    [set_physical_nodes] sort by, is not part of the sources at hand: it
    is an interface here, a key function into a type of keys compared
    with [<=]. *)
Class NodeSortKey : Type := {
  sort_key : Type;
  node_url_sort_key : string → sort_key;
  key_le : sort_key → sort_key → bool
}.

(** The comparison of keys is total, as Python's is on the tuples and
    integers the key function returns. *)
Class NodeSortKeyTotal `{NodeSortKey} : Prop :=
  key_le_total : ∀ a b : sort_key, key_le a b = true ∨ key_le b a = true.

(** A key for examples: node addresses ordered by length. *)
Definition length_sort_key : NodeSortKey :=
  {| sort_key := nat; node_url_sort_key := String.length; key_le := Nat.leb |}.

(** The elements the attribute [nodes] of an experiment can hold. *)
Inductive node : Type :=
  | NodeAddr (url : string)     (* the address of a physical node *)
  | NodeAlias (a : AliasNodes)  (* an [AliasNodes] object *)
  | NodeDict (d : AliasNodes).  (* the [dict] loaded from a description *)

(** The value under ['nodes'] in a resources dict: a list of addresses or
    an [AliasNodes] object. *)
Inductive nodes_arg : Type :=
  | NodesList (l : list string)
  | NodesAlias (a : AliasNodes).

(** The dict built by [exp_resources]. *)
Record resources : Type := mkResources {
  res_type : string;
  res_nodes : nodes_arg;
  res_firmware : option string;
  res_profile : option string;
  res_associations : list (string * string)  (* in [items()] order *)
}.

(** [exp_resources] *)
Definition exp_resources (nodes : nodes_arg) (firmware_path profile_name : option string)
    (associations : list (string * string)) : resources :=
  let exp_type :=
    match nodes with
    | NodesAlias _ => "alias"
    | NodesList _ => "physical"
    end in
  {| res_type := exp_type; res_nodes := nodes; res_firmware := firmware_path;
     res_profile := profile_name; res_associations := associations |}.

(** An entry of an association map: a value name and the node references
    it applies to. *)
Definition entry : Type := string * list string.

Record AssociationsMap : Type := mkAssociationsMap {
  assoctype : string;
  entries : list entry   (* in insertion order of the value names *)
}.

(** The canonical description of an experiment, as [json.loads] returns
    it: for each top-level key, [None] when the key is absent.  JSON
    [null] is the inner [None]. *)
Inductive dnode : Type :=
  | DStr (s : string)       (* a JSON string *)
  | DAlias (d : AliasNodes). (* a JSON object with the fields of an alias *)

Record exp_dict : Type := mkExpDict {
  d_name : option (option string);
  d_duration : option Z;
  d_reservation : option (option Z);
  d_type : option (option string);
  d_nodes : option (list dnode);
  d_firmwareassociations : option (option (list entry));
  d_profileassociations : option (option (list entry));
  d_associations : option (option (gmap string (list entry)))
}.

Record _Experiment : Type := mk_Experiment {
  duration : Z;
  reservation : option Z;
  name : option string;
  type : option string;
  nodes : list node;
  firmwareassociations : option AssociationsMap;
  profileassociations : option AssociationsMap;
  associations : option (gmap string AssociationsMap)
}.

(** [_Experiment.__init__] *)
Definition _Experiment_init (name : option string) (duration : Z)
    (start_time : option Z) : _Experiment :=
  {| duration := duration; reservation := start_time; name := name;
     type := None; nodes := [];
     firmwareassociations := None; profileassociations := None;
     associations := None |}.

(** Attribute assignments. *)
Definition set_type (e : _Experiment) (t : option string) : _Experiment :=
  {| duration := duration e; reservation := reservation e; name := name e;
     type := t; nodes := nodes e;
     firmwareassociations := firmwareassociations e;
     profileassociations := profileassociations e;
     associations := associations e |}.

Definition set_nodes (e : _Experiment) (ns : list node) : _Experiment :=
  {| duration := duration e; reservation := reservation e; name := name e;
     type := type e; nodes := ns;
     firmwareassociations := firmwareassociations e;
     profileassociations := profileassociations e;
     associations := associations e |}.

Definition set_firmwareassociations (e : _Experiment)
    (m : option AssociationsMap) : _Experiment :=
  {| duration := duration e; reservation := reservation e; name := name e;
     type := type e; nodes := nodes e;
     firmwareassociations := m;
     profileassociations := profileassociations e;
     associations := associations e |}.

Definition set_profileassociations (e : _Experiment)
    (m : option AssociationsMap) : _Experiment :=
  {| duration := duration e; reservation := reservation e; name := name e;
     type := type e; nodes := nodes e;
     firmwareassociations := firmwareassociations e;
     profileassociations := m;
     associations := associations e |}.

Definition set_associations (e : _Experiment)
    (d : option (gmap string AssociationsMap)) : _Experiment :=
  {| duration := duration e; reservation := reservation e; name := name e;
     type := type e; nodes := nodes e;
     firmwareassociations := firmwareassociations e;
     profileassociations := profileassociations e;
     associations := d |}.

(** [setattr_if_none]: the value of the attribute after the update. *)
Definition setattr_if_none {A : Type} (attr : option A) (default : A) : A :=
  match attr with
  | None => default
  | Some v => v
  end.

Section Model.
Context `{NodeSortKey}.

(** ** Sorting by key

    [sorted(l, key=...)] and [l.sort(key=...)] are stable: elements with
    equal keys keep their relative order. *)
Fixpoint insert_by_key (x : string) (l : list string) : list string :=
  match l with
  | [] => [x]
  | y :: l' =>
      if key_le (node_url_sort_key x) (node_url_sort_key y) then x :: l
      else y :: insert_by_key x l'
  end.

Definition sorted (l : list string) : list string := foldr insert_by_key [] l.

(** [list(s)] for a set [s] of strings: its elements, once each, in an
    order the program has no control over. *)
Definition list_of_set (s : gset string) : list string := elements s.

(** ** [AssociationsMap] *)

(** [AssociationsMap(assoctype, resource='nodes', sortkey=...)] *)
Definition AssociationsMap_new (assoctype : string) : AssociationsMap :=
  {| assoctype := assoctype; entries := [] |}.

(** The node references of a value: a set kept sorted by the key. *)
Definition node_set (refs : list string) : list string :=
  sorted (remove_dups refs).

(** The references held under a value name other than [name]. *)
Definition held_elsewhere (name : string) (es : list entry) : list string :=
  concat (snd <$> filter (λ e : entry, e.1 ≠ name) es).

Fixpoint extend_entries (name : string) (refs : list string)
    (es : list entry) : list entry :=
  match es with
  | [] => [(name, node_set refs)]
  | (k, held) :: es' =>
      if decide (k = name) then (k, node_set (held ++ refs)) :: es'
      else (k, held) :: extend_entries name refs es'
  end.

(** Modelled from the spec: [AssociationsMap.extendvalues] is not part of
    the sources at hand.  "If [value_name] already has an entry, appends
    [node_refs] to its node-set; otherwise creates a new entry preserving
    first-seen order.  Fails with [ConflictError] if any node in
    [node_refs] is already present under a different [value_name] in this
    map."  The name is the one [nodes_association_name] computed. *)
Definition extendvalues (m : AssociationsMap) (name : string)
    (refs : list string) : result AssociationsMap :=
  let taken := held_elsewhere name (entries m) in
  let conflicts := filter (λ r, r ∈ taken) refs in
  if decide (conflicts = []) then
    Ok {| assoctype := assoctype m;
          entries := extend_entries name refs (entries m) |}
  else Raise (ValueError_conflict (assoctype m) conflicts).

(** Modelled from the spec: [AssociationsMap.keys] is not part of the
    sources at hand.  "Produces a lazy sequence of distinct value_names
    in insertion order." *)
Definition keys (m : AssociationsMap) : list string := fst <$> entries m.

(** Modelled from the spec: the serialisation of an association map is
    not part of the sources at hand.  It is "an ordered list of
    [{value_name, node_refs}]" records. *)
Definition AssociationsMap_list (m : AssociationsMap) : list entry := entries m.

(** Modelled from the spec: [AssociationsMap.from_list] is not part of
    the sources at hand.  It "reconstructs a map from a previously
    serialized ordered list of [{value_name, node_refs}] records without
    conflict re-validation"; an absent list ([None]) stays [None], the
    case [filenames] provides for. *)
Definition from_list (assoclist : option (list entry)) (assoctype : string)
    : option AssociationsMap :=
  match assoclist with
  | None => None
  | Some records =>
      Some {| assoctype := assoctype;
              entries := foldl (λ es '(name, refs), extend_entries name refs es)
                               [] records |}
  end.

(** Modelled from the spec: [associationsmapdict_from_dict] is not part
    of the sources at hand.  "Any other association type appears under a
    generic associations mapping keyed by type name": each list is loaded
    with [from_list] under its type. *)
Definition associationsmapdict_from_dict
    (assocsdict : option (gmap string (list entry)))
    : option (gmap string AssociationsMap) :=
  match assocsdict with
  | None => None
  | Some d => Some (map_imap (λ assoctype records,
                                from_list (Some records) assoctype) d)
  end.

(** ** [_Experiment] *)

(** [_Experiment._set_type] *)
Definition _set_type (e : _Experiment) (exp_type : string) : result _Experiment :=
  match type e with
  | Some t =>
      if decide (t ≠ exp_type) then Raise ValueError_type
      else Ok (set_type e (Some exp_type))
  | None => Ok (set_type e (Some exp_type))
  end.

(** [set(self.nodes)]: only strings are hashable; a [dict] or an
    [AliasNodes] object (which defines [__eq__] and no [__hash__]) is
    not. *)
Fixpoint hashable_nodes (ns : list node) : result (list string) :=
  match ns with
  | [] => Ok []
  | NodeAddr url :: ns' => urls ← hashable_nodes ns'; Ok (url :: urls)
  | _ :: _ => Raise TypeError
  end.

(** [_Experiment.set_physical_nodes] *)
Definition set_physical_nodes (e : _Experiment) (nodes_list : list string)
    : result _Experiment :=
  e ← _set_type e "physical";
  self_nodes ← hashable_nodes (nodes e);
  let _intersect :=
    list_of_set (list_to_set self_nodes ∩ list_to_set nodes_list) in
  if decide (_intersect ≠ []) then Raise (ValueError_multiple _intersect)
  else
    let self_nodes := self_nodes ++ nodes_list in
    Ok (set_nodes e (NodeAddr <$> sorted (list_of_set (list_to_set self_nodes)))).

(** [_Experiment.set_alias_nodes] *)
Definition set_alias_nodes (e : _Experiment) (alias_nodes : AliasNodes)
    : result _Experiment :=
  e ← _set_type e "alias";
  Ok (set_nodes e (nodes e ++ [NodeAlias alias_nodes])).

(** [_Experiment._register_nodes], applied to the nodes of the resources.
    The property looks the method up by [self.type] (a [KeyError] when it
    is neither of the two).  [set_physical_nodes] cannot build a set
    from an [AliasNodes] object.  [set_alias_nodes] would append a list
    of addresses as it is, and [_nodes_to_assoc], the next statement of
    [add_exp_resources], then fails on its missing [alias] attribute. *)
Definition _register_nodes (e : _Experiment) (nodes : nodes_arg)
    : result _Experiment :=
  match type e with
  | None => Raise (KeyError "None")
  | Some t =>
      if decide (t = "physical") then
        match nodes with
        | NodesList l => set_physical_nodes e l
        | NodesAlias _ => Raise TypeError
        end
      else if decide (t = "alias") then
        match nodes with
        | NodesAlias a => set_alias_nodes e a
        | NodesList _ => Raise AttributeError
        end
      else Raise (KeyError t)
  end.

(** [_Experiment._nodes_to_assoc].  Outside alias mode the source returns
    its argument as it is; an [AliasNodes] object is then no list of
    references and the association maps cannot iterate it. *)
Definition _nodes_to_assoc (e : _Experiment) (nodes : nodes_arg)
    : result (list string) :=
  if decide (type e = Some "alias") then
    match nodes with
    | NodesAlias a => Ok [alias a]
    | NodesList _ => Raise AttributeError
    end
  else
    match nodes with
    | NodesList l => Ok l
    | NodesAlias _ => Raise TypeError
    end.

(** [self._firmwareassociations().extendvalues(name, nodes)] *)
Definition extend_firmwareassociations (e : _Experiment) (name : string)
    (nodes : list string) : result _Experiment :=
  let assocs := setattr_if_none (firmwareassociations e)
                                (AssociationsMap_new "firmware") in
  assocs ← extendvalues assocs name nodes;
  Ok (set_firmwareassociations e (Some assocs)).

(** [self._profileassociations().extendvalues(name, nodes)] *)
Definition extend_profileassociations (e : _Experiment) (name : string)
    (nodes : list string) : result _Experiment :=
  let assocs := setattr_if_none (profileassociations e)
                                (AssociationsMap_new "profile") in
  assocs ← extendvalues assocs name nodes;
  Ok (set_profileassociations e (Some assocs)).

(** [_Experiment._add_nodes_association]; [_associations(assoctype)] is
    [setattr_if_none] on the dict followed by [setdefault]. *)
Definition _add_nodes_association (e : _Experiment) (nodes : list string)
    (assoctype assocname : string) : result _Experiment :=
  let name := nodes_association_name assoctype assocname in
  let assocs := setattr_if_none (associations e) ∅ in
  let assocmap := default (AssociationsMap_new assoctype) (assocs !! assoctype) in
  assocmap ← extendvalues assocmap name nodes;
  Ok (set_associations e (Some (<[assoctype := assocmap]> assocs))).

(** The loop over [associations.items()] of [add_exp_resources]. *)
Fixpoint add_other_associations (e : _Experiment) (nodes : list string)
    (associations : list (string * string)) : result _Experiment :=
  match associations with
  | [] => Ok e
  | (assoctype, assocname) :: rest =>
      e ← _add_nodes_association e nodes assoctype assocname;
      add_other_associations e nodes rest
  end.

(** [_Experiment.add_exp_resources] *)
Definition add_exp_resources (e : _Experiment) (res : resources)
    : result _Experiment :=
  e ← _set_type e (res_type res);
  e ← _register_nodes e (res_nodes res);
  nodes ← _nodes_to_assoc e (res_nodes res);
  e ← match res_firmware res with
      | Some firmware =>
          extend_firmwareassociations e
            (nodes_association_name "firmware" firmware) nodes
      | None => Ok e
      end;
  e ← match res_profile res with
      | Some profile =>
          extend_profileassociations e
            (nodes_association_name "profile" profile) nodes
      | None => Ok e
      end;
  add_other_associations e nodes (res_associations res).

(** The loop of [submit_experiment] that adds the resources one by one. *)
Fixpoint add_all_resources (e : _Experiment) (rs : list resources)
    : result _Experiment :=
  match rs with
  | [] => Ok e
  | res :: rs' => e ← add_exp_resources e res; add_all_resources e rs'
  end.

(** [_Experiment.filenames] *)
Definition filenames (e : _Experiment) : list string :=
  match firmwareassociations e with
  | Some assocs => keys assocs
  | None => []
  end.

(** ** The canonical description *)

Definition node_description (n : node) : dnode :=
  match n with
  | NodeAddr url => DStr url
  | NodeAlias a => DAlias a
  | NodeDict d => DAlias d
  end.

(** Modelled from the spec: [helpers.json_dumps] and its encoder are not
    part of the sources at hand.  [serialize] "produces the canonical
    description: name, duration, start_time, addressing mode, node list,
    and per-association-type ordered entry lists", under the field names
    [name], [duration], [reservation], [type], [nodes],
    [firmwareassociations], [profileassociations] and [associations]; an
    [AliasNodes] object is described by its attributes. *)
Definition serialize (e : _Experiment) : exp_dict :=
  {| d_name := Some (name e);
     d_duration := Some (duration e);
     d_reservation := Some (reservation e);
     d_type := Some (type e);
     d_nodes := Some (node_description <$> nodes e);
     d_firmwareassociations :=
       Some (AssociationsMap_list <$> firmwareassociations e);
     d_profileassociations :=
       Some (AssociationsMap_list <$> profileassociations e);
     d_associations :=
       Some (fmap (M:=gmap string) AssociationsMap_list <$> associations e) |}.

(** [exp_dict.pop(key)] *)
Definition pop {A : Type} (key : string) (field : option A) : result A :=
  match field with
  | Some v => Ok v
  | None => Raise (KeyError key)
  end.

(** What [json.loads] makes of a node of the description. *)
Definition loaded_node (d : dnode) : node :=
  match d with
  | DStr s => NodeAddr s
  | DAlias d => NodeDict d
  end.

(** [_Experiment._load_assocs]; an absent keyword is its default [None]. *)
Definition _load_assocs (e : _Experiment)
    (firmwareassociations profileassociations : option (list entry))
    (associations : option (gmap string (list entry))) : _Experiment :=
  let e := set_firmwareassociations e (from_list firmwareassociations "firmware") in
  let e := set_profileassociations e (from_list profileassociations "profile") in
  set_associations e (associationsmapdict_from_dict associations).

(** [_Experiment.from_dict] *)
Definition from_dict (d : exp_dict) : result _Experiment :=
  name ← pop "name" (d_name d);
  duration ← pop "duration" (d_duration d);
  reservation ← pop "reservation" (d_reservation d);
  let experiment := _Experiment_init name duration reservation in
  type ← pop "type" (d_type d);
  let experiment := set_type experiment type in
  nodes ← pop "nodes" (d_nodes d);
  let experiment := set_nodes experiment (loaded_node <$> nodes) in
  Ok (_load_assocs experiment
        (mjoin (d_firmwareassociations d))
        (mjoin (d_profileassociations d))
        (mjoin (d_associations d))).

End Model.

(** ** Data for the examples *)

Definition demo_vocabulary : list string :=
  ["Waiting"; "Launching"; "Running"; "Terminated"; "Error"].

(** A clock whose first reading inside the loop equals the reading taken
    at loop entry, as happens when both calls fall within one tick. *)
Definition stalled_clock (k : nat) : Z :=
  if bool_decide (k ≤ 1)%nat then 100 else 105.

(** A clock whose first three readings coincide. *)
Definition frozen_clock (k : nat) : Z :=
  if bool_decide (k ≤ 2)%nat then 100 else 105.

Definition always_waiting (k : nat) : string := "Waiting".

Definition error_at_2 (k : nat) : string :=
  match k with
  | 0%nat => "Waiting"
  | 1%nat => "Launching"
  | _ => "Error"
  end.

(** The strings [re.match] accepts for [ARCHI_RE] are those that begin
    with one of the five literal architectures or with [custom:]. *)
Definition archi_prefixes : list string :=
  ["wsn430:cc1101"; "wsn430:cc2420"; "m3:at86rf231"; "a8:at86rf231";
   "des:wifi-cc1100"; "custom:"].

(** The architectures the whitelist spells out in full. *)
Definition exact_archis : list string :=
  ["wsn430:cc1101"; "wsn430:cc2420"; "m3:at86rf231"; "a8:at86rf231";
   "des:wifi-cc1100"].

(** Requests used in the examples. *)
Definition demo_requests : list request :=
  [ mkRequest 5 "grenoble" "m3:at86rf231" false None;
    mkRequest 2 "strasbourg" "wsn430:cc1101" true (Some (AliasInt 7));
    mkRequest 2 "strasbourg" "wsn430:cc1100" true None;
    mkRequest 1 "lille" "custom:leonardo:" false (Some (AliasStr "mine"));
    mkRequest 2 "strasbourg" "wsn430:cc1101" true None ].

(** ** Vocabulary of the properties *)

Section Order.
Context `{NodeSortKey}.

(** The canonical ordering of node references: by key. *)
Definition key_order (x y : string) : Prop :=
  key_le (node_url_sort_key x) (node_url_sort_key y) = true.

Definition sorted_by_key (l : list string) : Prop := Sorted key_order l.

End Order.

(** The distinct elements of a list, in the order they first occur. *)
Definition first_seen (l : list string) : list string :=
  foldl (λ seen x, if decide (x ∈ seen) then seen else seen ++ [x]) [] l.

(** Lexicographic order on strings, as Python compares them. *)
Definition sorted_strings (l : list string) : Prop :=
  Sorted (λ a b, String.leb a b = true) l.

(** Experiments and resources used in the examples. *)
Definition demo_alias_nodes : AliasNodes :=
  {| alias := "1"; nbnodes := 5;
     properties := {| archi := "m3:at86rf231"; site := "grenoble";
                      mobile := false |} |}.

Definition demo_group_1 : resources :=
  exp_resources
    (NodesList ["m3-2.grenoble.iot-lab.info"; "m3-1.grenoble.iot-lab.info";
                "m3-2.grenoble.iot-lab.info"])
    (Some "firmwares/b.elf") (Some "battery") [("script", "scripts/run.sh")].

Definition demo_group_2 : resources :=
  exp_resources (NodesList ["m3-30.lille.iot-lab.info"]) (Some "a.elf") None [].

Definition demo_group_3 : resources :=
  exp_resources
    (NodesList ["m3-7.lille.iot-lab.info"; "m3-1.grenoble.iot-lab.info"])
    (Some "a.elf") None [].

Definition demo_alias_group : resources :=
  exp_resources (NodesAlias demo_alias_nodes) (Some "firmwares/a.elf") None
                [("firmware", "other/c.elf")].

Definition demo_experiment : _Experiment := _Experiment_init (Some "demo") 20 None.

(** The experiment [demo_experiment] after the given resources were
    added (unchanged if an addition fails). *)
Definition demo_built (rs : list resources) : _Experiment :=
  match add_all_resources (H:=length_sort_key) demo_experiment rs with
  | Ok e => e
  | Raise _ => demo_experiment
  end.

(** The node references the associations of some resources are about:
    the addresses themselves, or the alias id. *)
Definition association_subject (res : resources) : list string :=
  match res_nodes res with
  | NodesList l => l
  | NodesAlias a => [alias a]
  end.

(** [recorded m name refs]: the map holds [refs] under the value [name]. *)
Definition recorded (m : AssociationsMap) (name : string)
    (refs : list string) : Prop :=
  ∃ held, (name, held) ∈ entries m ∧ refs ⊆ held.

(** The firmware names of a sequence of resources, as recorded. *)
Definition firmware_names (rs : list resources) : list string :=
  omap (λ res, basename <$> res_firmware res) rs.

Section WellFormed.
Context `{NodeSortKey}.

(** The shape of the association maps the builder produces: one entry
    per value name, each holding a sorted set of references. *)
Definition wf_entries (es : list entry) : Prop :=
  NoDup (fst <$> es) ∧ Forall (λ en : entry, node_set en.2 = en.2) es.

Definition wf_map (m : AssociationsMap) : Prop := wf_entries (entries m).

Definition wf_experiment (e : _Experiment) : Prop :=
  (∀ m, firmwareassociations e = Some m → wf_map m) ∧
  (∀ m, profileassociations e = Some m → wf_map m) ∧
  (∀ d t m, associations e = Some d → d !! t = Some m → wf_map m).

End WellFormed.

(** [recorded_other e t name refs]: the map of the association type [t]
    in the generic associations of [e] holds [refs] under [name]. *)
Definition recorded_other (e : _Experiment) (t name : string)
    (refs : list string) : Prop :=
  ∃ d m, associations e = Some d ∧ d !! t = Some m ∧ recorded m name refs.

(** The reference an association uses for a node of the experiment. *)
Definition node_ref (n : node) : string :=
  match n with
  | NodeAddr url => url
  | NodeAlias a => alias a
  | NodeDict d => alias d
  end.

(** Every reference held by the entries is one of [known]. *)
Definition entries_within (es : list entry) (known : list string) : Prop :=
  ∀ k held x, (k, held) ∈ es → x ∈ held → x ∈ known.

(** The associations of an experiment only mention its own nodes. *)
Definition refs_registered (e : _Experiment) : Prop :=
  let known := node_ref <$> nodes e in
  (∀ m, firmwareassociations e = Some m → entries_within (entries m) known) ∧
  (∀ m, profileassociations e = Some m → entries_within (entries m) known) ∧
  (∀ d t m, associations e = Some d → d !! t = Some m →
            entries_within (entries m) known).

(** ** Further operations of [experiment.py] *)

(** [sorted(l)] without a key compares the strings themselves. *)
Definition string_key : NodeSortKey :=
  {| sort_key := string; node_url_sort_key := id; key_le := String.leb |}.

Definition sorted_strs (l : list string) : list string :=
  sorted (H:=string_key) l.

(** The outcome of [_files_with_filespath]: the list returned, or the
    [ValueError] 'Filespath %s not in files list %s' with the two lists
    its message is formatted from. *)
Inductive filespath_result : Type :=
  | Updated (files : list string)
  | ValueError_filespath (remaining files : list string).

(** [dict((basename(f), f) for f in filespath)]: a later path replaces an
    earlier one of the same basename. *)
Definition filespathdict_of (filespath : list string) : gmap string string :=
  foldl (λ d f, <[basename f := f]> d) ∅ filespath.

(** [d.pop(key, default)]: the value and the dict left. *)
Definition dict_pop (key default : string) (d : gmap string string)
    : string * gmap string string :=
  match d !! key with
  | Some v => (v, delete key d)
  | None => (default, d)
  end.

(** [[filespathdict.pop(f, f) for f in fs]] *)
Fixpoint pop_all (fs : list string) (d : gmap string string)
    : list string * gmap string string :=
  match fs with
  | [] => ([], d)
  | f :: fs' =>
      let '(v, d) := dict_pop f f d in
      let '(vs, d) := pop_all fs' d in
      (v :: vs, d)
  end.

(** [_files_with_filespath]; [list(filespathdict.values())] lists the
    values left in an order the program has no control over. *)
Definition _files_with_filespath (files filespath : list string)
    : filespath_result :=
  let filespathdict := filespathdict_of filespath in
  let '(updatedfiles, filespathdict) :=
    pop_all (list_of_set (list_to_set files)) filespathdict in
  if decide (filespathdict ≠ ∅) then
    ValueError_filespath (snd <$> map_to_list filespathdict)
                         (sorted_strs (list_of_set (list_to_set files)))
  else Updated (sorted_strs updatedfiles).

(** The path [_files_with_filespath] uses for a file: the last of the
    given paths with that basename, if any. *)
Definition path_for (filespath : list string) (f : string) : option string :=
  last (filter (λ p, basename p = f) filespath).

(** [reload_experiment]: the JSON object sent, and the call of the API
    method ([api_reload_experiment] stands for [api.reload_experiment]). *)
Definition reload_experiment_json (duration start_time : option Z)
    : gmap string string :=
  let exp_json : gmap string string := ∅ in
  let exp_json :=
    match duration with
    | Some d => <["duration" := str (AliasInt d)]> exp_json
    | None => exp_json
    end in
  match start_time with
  | Some t => <["reservation" := str (AliasInt t)]> exp_json
  | None => exp_json
  end.

Definition reload_experiment {R : Type}
    (api_reload_experiment : Z → gmap string string → R) (exp_id : Z)
    (duration start_time : option Z) : R :=
  api_reload_experiment exp_id (reload_experiment_json duration start_time).

(** [AliasNodes.__repr__] spells a call of the constructor: these are
    its arguments. *)
Definition AliasNodes_repr (a : AliasNodes) : request :=
  {| req_nbnodes := nbnodes a;
     req_site := site (properties a);
     req_archi := archi (properties a);
     req_mobile := mobile (properties a);
     req_alias := Some (AliasStr (alias a)) |}.

(** The alias objects and the addresses a sequence of resources brings. *)
Definition alias_nodes_of (rs : list resources) : list node :=
  omap (λ res, match res_nodes res with
               | NodesAlias a => Some (NodeAlias a)
               | NodesList _ => None
               end) rs.

Definition addresses_of (rs : list resources) : list string :=
  rs ≫= (λ res, match res_nodes res with
                | NodesList l => l
                | NodesAlias _ => []
                end).

(** State functions used in the examples. *)
Definition running_at_2 (k : nat) : string :=
  match k with
  | 0%nat => "Waiting"
  | 1%nat => "Launching"
  | _ => "Running"
  end.

Definition always_terminated (k : nat) : string := "Terminated".

(** Each association map of the experiment carries the association type
    it is stored under. *)
Definition typed_maps (e : _Experiment) : Prop :=
  (∀ m, firmwareassociations e = Some m → assoctype m = "firmware") ∧
  (∀ m, profileassociations e = Some m → assoctype m = "profile") ∧
  (∀ d t m, associations e = Some d → d !! t = Some m → assoctype m = t).

(** The nodes an experiment can hold in each of its modes when it is
    built by additions. *)
Definition built_shape (e : _Experiment) : Prop :=
  (type e = None ∧ nodes e = []) ∨
  (type e = Some "physical" ∧ ∃ l, nodes e = NodeAddr <$> l) ∨
  type e = Some "alias".


Definition demo_alias_nodes_2 : AliasNodes :=
  {| alias := "2"; nbnodes := 2;
     properties := {| archi := "wsn430:cc1101"; site := "strasbourg";
                      mobile := true |} |}.

(** ** The authentication command ([parser/auth.py])

    The command talks to collaborators that are not modelled further:
    each call is recorded as an event, in program order, and each
    collaborator is taken to return. *)
Module Auth.

(** The parsed options the command reads. *)
Record opts : Type := mkOpts {
  user_key : bool;                  (* -k *)
  key_file : option (list string);  (* --key, action='append' *)
  username : option string;
  password : option string
}.

Record collaborators : Type := mkCollaborators {
  local_public_key : string;                (* ssh_key.get_local_public_key() *)
  typed_password : string;                  (* getpass.getpass() *)
  valid_credentials : string → string → bool
                                            (* auth.check_user_credentials *)
}.

Inductive event : Type :=
  | GetUserCredentials     (* the API object built from the stored credentials *)
  | GetLocalPublicKey
  | InstallSshKey (key_file : string)
  | GetPass
  | CheckUserCredentials (username password : string)
  | WritePasswordFile (username password : string).

Inductive outcome : Type :=
  | Return (value : string)
  | ValueError_username      (* "username required" *)
  | RuntimeError_login.      (* 'Wrong login:password' *)

(** Truth value of a list option and of a string option: [None] and the
    empty value are false. *)
Definition truthy_list {A : Type} (o : option (list A)) : bool :=
  match o with
  | Some (_ :: _) => true
  | _ => false
  end.

Definition truthy_str (o : option string) : bool :=
  match o with
  | Some s => negb (String.eqb s "")
  | None => false
  end.

(** [install_ssh_key] *)
Definition install_ssh_key (c : collaborators) (opt_key_file : option (list string))
    : list event :=
  GetUserCredentials ::
  match opt_key_file with
  | Some (key_file :: _) => [InstallSshKey key_file]
  | _ => [GetLocalPublicKey; InstallSshKey (local_public_key c)]
  end.

(** [auth_parse_and_run] *)
Definition auth_parse_and_run (c : collaborators) (o : opts)
    : outcome * list event :=
  if user_key o || truthy_list (key_file o) then
    (Return "Key installed", install_ssh_key c (key_file o))
  else if negb (truthy_str (username o)) then (ValueError_username, [])
  else
    let user := default "" (username o) in
    let '(pass, asked) :=
      if truthy_str (password o) then (default "" (password o), [])
      else (typed_password c, [GetPass]) in
    if valid_credentials c user pass then
      (Return "Written",
       asked ++ [CheckUserCredentials user pass; WritePasswordFile user pass])
    else (RuntimeError_login, asked ++ [CheckUserCredentials user pass]).

End Auth.

(** ** Getting an experiment ([experiment_parser.py]) *)
Module ExperimentParser.

(** The methods of the API object the command table refers to. *)
Inductive api_method : Type :=
  | api_get_experiment_archive
  | api_get_experiment
  | api_get_experiment_resources_id
  | api_get_experiment_state
  | api_get_experiment_resources.

(** The dict that maps a command to a method. *)
Definition commands : list (string * api_method) :=
  [ ("archive", api_get_experiment_archive);
    ("print", api_get_experiment);
    ("resources_exp_id", api_get_experiment_resources_id);
    ("exp_state", api_get_experiment_state);
    ("resources", api_get_experiment_resources) ].

Fixpoint getitem (d : list (string * api_method)) (key : string)
    : result api_method :=
  match d with
  | [] => Raise (KeyError key)
  | (k, m) :: d' => if decide (k = key) then Ok m else getitem d' key
  end.

(** What the variable [command] holds: first the name given, then the
    bound method looked up under it. *)
Inductive command_value : Type :=
  | CommandName (name : string)
  | CommandMethod (method : api_method).

(** [==] on these values: a bound method is no string. *)
Definition command_eq (a b : command_value) : bool :=
  match a, b with
  | CommandName s, CommandName t => String.eqb s t
  | CommandMethod m, CommandMethod n =>
      match m, n with
      | api_get_experiment_archive, api_get_experiment_archive
      | api_get_experiment, api_get_experiment
      | api_get_experiment_resources_id, api_get_experiment_resources_id
      | api_get_experiment_state, api_get_experiment_state
      | api_get_experiment_resources, api_get_experiment_resources => true
      | _, _ => false
      end
  | _, _ => false
  end.

(** [get_experiment]: the value returned together with the archives
    handed to [helpers.write_experiment_archive] (experiment id and
    data).  [get_current_experiment] stands for the helper of that name
    and [api] for the call of a method of the API object. *)
Definition get_experiment (get_current_experiment : option Z → Z)
    (api : api_method → Z → string) (command : string)
    (experiment_id : option Z) : result (string * list (Z * string)) :=
  let exp_id := get_current_experiment experiment_id in
  method ← getitem commands command;
  let command := CommandMethod method in
  let result := api method exp_id in
  if command_eq command (CommandName "archive") then
    Ok ("Written", [(exp_id, result)])
  else Ok (result, []).

End ExperimentParser.

(** Collaborators and options used in the examples. *)
Definition demo_collaborators : Auth.collaborators :=
  {| Auth.local_public_key := "id_rsa.pub";
     Auth.typed_password := "secret";
     Auth.valid_credentials := λ u p, String.eqb u "alice" && String.eqb p "secret" |}.

Definition demo_opts_login : Auth.opts :=
  {| Auth.user_key := false; Auth.key_file := None;
     Auth.username := Some "alice"; Auth.password := Some "" |}.

Definition demo_opts_keys : Auth.opts :=
  {| Auth.user_key := true; Auth.key_file := Some ["a.pub"; "b.pub"];
     Auth.username := None; Auth.password := Some "wrong" |}.

(** * Properties *)

(** ** Architecture validation *)

Lemma string_app_cons (c : ascii) (p s : string) :
  String c p +:+ s = String c (p +:+ s).
Proof. reflexivity. Qed.

Lemma match_atoms_literal (p : string) (q : list atom) (s : string) :
  match_atoms ((Chr <$> String.list_ascii_of_string p) ++ q) s = true ↔
  ∃ s', s = p +:+ s' ∧ match_atoms q s' = true.
Proof.
  revert s. induction p as [|c p IH]; intros s; simpl.
  - split; [intros Hm; by exists s | by intros (s' & -> & Hm)].
  - destruct s as [|c' s]; simpl.
    + split; [done | by intros (s' & ? & _)].
    + destruct (Ascii.eqb_spec c c') as [->|Hne].
      * rewrite IH. split; intros (s' & Hs & Hm); exists s';
          rewrite string_app_cons in *; split; congruence.
      * split; [done | intros (s' & Hs & _)].
        rewrite string_app_cons in Hs. congruence.
Qed.

Lemma match_atoms_any_star (s : string) : match_atoms [AnyStar] s = true.
Proof. by destruct s. Qed.

Lemma match_literal_pattern (p s : string) :
  match_atoms (Chr <$> String.list_ascii_of_string p) s = true ↔ ∃ s', s = p +:+ s'.
Proof.
  rewrite <-(app_nil_r (Chr <$> _)), match_atoms_literal.
  split; [intros (s' & ? & _) | intros (s' & ?)]; by exists s'.
Qed.

Lemma match_custom_pattern (s : string) :
  match_atoms ((Chr <$> String.list_ascii_of_string "custom:") ++ [AnyStar]) s = true ↔
  ∃ s', s = "custom:" +:+ s'.
Proof.
  rewrite match_atoms_literal.
  split; [intros (s' & ? & _) | intros (s' & ?)]; exists s'; [done|].
  split; [done | apply match_atoms_any_star].
Qed.

(** [_valid_archi] accepts exactly the strings that start with one of
    [archi_prefixes]. *)
Lemma valid_archi_iff_prefix (a : string) :
  _valid_archi a = true ↔ ∃ p s', p ∈ archi_prefixes ∧ a = p +:+ s'.
Proof.
  unfold _valid_archi, re_match, ARCHI_RE, ARCHIS, archi_prefixes.
  cbn [map existsb]. rewrite !orb_true_iff.
  change (parse_pattern "custom:.*")
    with ((Chr <$> String.list_ascii_of_string "custom:") ++ [AnyStar]).
  change (parse_pattern "wsn430:cc1101") with (Chr <$> String.list_ascii_of_string "wsn430:cc1101").
  change (parse_pattern "wsn430:cc2420") with (Chr <$> String.list_ascii_of_string "wsn430:cc2420").
  change (parse_pattern "m3:at86rf231") with (Chr <$> String.list_ascii_of_string "m3:at86rf231").
  change (parse_pattern "a8:at86rf231") with (Chr <$> String.list_ascii_of_string "a8:at86rf231").
  change (parse_pattern "des:wifi-cc1100") with (Chr <$> String.list_ascii_of_string "des:wifi-cc1100").
  rewrite !match_literal_pattern, match_custom_pattern.
  split.
  - intros [H|[H|[H|[H|[H|[H|H]]]]]]; try done;
      destruct H as [s' ->]; eexists _, s'; (split; [|done]); set_solver.
  - intros (p & s' & Hp & ->).
    repeat (apply elem_of_cons in Hp as [->|Hp]; [eauto 10|]).
    by apply elem_of_nil in Hp.
Qed.

(** Every architecture the whitelist spells out is accepted. *)
Lemma valid_archi_exact (a : string) : a ∈ exact_archis → _valid_archi a = true.
Proof.
  intros Ha. unfold exact_archis in Ha.
  repeat (apply elem_of_cons in Ha as [->|Ha]; [done|]).
  by apply elem_of_nil in Ha.
Qed.

(** Every architecture of the form [custom:<anything>] is accepted. *)
Lemma valid_archi_custom (rest : string) : _valid_archi ("custom:" +:+ rest) = true.
Proof.
  apply valid_archi_iff_prefix. exists "custom:", rest. split; [|done].
  unfold archi_prefixes. set_solver.
Qed.

(** A string that starts with none of the prefixes is rejected, and the
    construction raises the [ValueError], leaving the counter alone. *)
Lemma AliasNodes_init_invalid nbnodes site archi mobile _alias cls_alias :
  _valid_archi archi = false →
  AliasNodes_init nbnodes site archi mobile _alias cls_alias
  = (Raise (ValueError_archi archi), cls_alias).
Proof. intros Hv. unfold AliasNodes_init. by rewrite Hv. Qed.

Lemma AliasNodes_init_valid nbnodes site archi mobile _alias cls_alias :
  _valid_archi archi = true →
  AliasNodes_init nbnodes site archi mobile _alias cls_alias
  = (Ok {| alias := (_alias_uid _alias cls_alias).1; nbnodes := nbnodes;
           properties := {| archi := archi; site := site; mobile := mobile |} |},
     (_alias_uid _alias cls_alias).2).
Proof.
  intros Hv. unfold AliasNodes_init. rewrite Hv. simpl.
  by destruct (_alias_uid _alias cls_alias).
Qed.

(** C4 (the code departs from the claim): an architecture that merely
    starts with a whitelisted one is neither one of the exact whitelist
    strings nor of the form [custom:...], and yet [_valid_archi] accepts
    it and the construction succeeds: [re.match] does not anchor the
    pattern at the end of the string. *)
Theorem C4_archi_prefix_accepted :
  ("wsn430:cc1101x" ∉ exact_archis) ∧
  (∀ rest, "wsn430:cc1101x" ≠ "custom:" +:+ rest) ∧
  _valid_archi "wsn430:cc1101x" = true ∧
  AliasNodes_init 2 "strasbourg" "wsn430:cc1101x" true None _alias_initial
  = (Ok {| alias := "1"; nbnodes := 2;
           properties := {| archi := "wsn430:cc1101x"; site := "strasbourg";
                            mobile := true |} |}, 1).
Proof.
  split; [|split; [|split]].
  - by apply (bool_decide_eq_false_1 _).
  - intros rest Heq. discriminate Heq.
  - reflexivity.
  - reflexivity.
Qed.

(** ** The alias counter *)

Lemma _alias_uid_auto (cls_alias : Z) :
  _alias_uid None cls_alias = (pretty (cls_alias + 1), cls_alias + 1).
Proof. reflexivity. Qed.

Lemma _alias_uid_given (a : alias_arg) (cls_alias : Z) :
  _alias_uid (Some a) cls_alias = (str a, cls_alias).
Proof. reflexivity. Qed.

(** Along any run of constructions, the requests without an alias of
    their own receive the consecutive counter values that follow the
    starting value, and the counter ends up advanced by their number. *)
Lemma construct_all_auto (reqs : list request) (c : Z) :
  let n := Z.of_nat (length (auto_aliases (construct_all reqs c).1)) in
  auto_aliases (construct_all reqs c).1 = pretty <$> seqZ (c + 1) n ∧
  (construct_all reqs c).2 = c + n.
Proof.
  revert c. induction reqs as [|r reqs IH]; intros c.
  - simpl. split; [done | lia].
  - simpl. unfold AliasNodes_init.
    destruct (_valid_archi (req_archi r)) eqn:Hv; simpl.
    + destruct (req_alias r) as [a|] eqn:Ha; simpl.
      * specialize (IH c). destruct (construct_all reqs c) as [rest c'].
        simpl in *. by rewrite Ha.
      * specialize (IH (c + 1)).
        destruct (construct_all reqs (c + 1)) as [rest c']. simpl in *.
        rewrite Ha. simpl. destruct IH as [IH1 IH2]. split; [|lia].
        rewrite (seqZ_cons (c + 1)) by lia. rewrite fmap_cons. f_equal.
        rewrite IH1 at 1. do 2 f_equal; lia.
    + specialize (IH c). destruct (construct_all reqs c) as [rest c'].
      simpl in *. by destruct (req_alias r).
Qed.

(** A request that names its alias gets it back as a string. *)
Lemma construct_all_given (reqs : list request) (c : Z) r res a x :
  (r, res) ∈ (construct_all reqs c).1 →
  req_alias r = Some a → res = Ok x → alias x = str a.
Proof.
  revert c. induction reqs as [|r' reqs IH]; intros c; simpl.
  - by intros ?%elem_of_nil.
  - unfold AliasNodes_init.
    destruct (_valid_archi (req_archi r')) eqn:Hv; simpl.
    + destruct (_alias_uid (req_alias r') c) as [uid c1] eqn:Hu.
      specialize (IH c1). destruct (construct_all reqs c1) as [rest c']. simpl in *.
      intros [Heq|Hin]%elem_of_cons Ha Hx; [|by eauto].
      injection Heq as -> ->. injection Hx as <-. simpl.
      rewrite Ha in Hu. by injection Hu as <- _.
    + specialize (IH c). destruct (construct_all reqs c) as [rest c']. simpl in *.
      intros [Heq|Hin]%elem_of_cons Ha Hx; [|by eauto].
      injection Heq as -> ->. discriminate Hx.
Qed.

(** C9: a construction without an alias takes the next value of the
    shared counter and uses its decimal form as alias id; a construction
    with an alias uses it verbatim as a string and leaves the counter as
    it was; and over all the constructions of a process, starting from
    the initial counter [0], the automatically assigned ids are "1", "2",
    ... in order. *)
Theorem C9_alias_counter :
  (∀ nbnodes site archi mobile c,
     _valid_archi archi = true →
     AliasNodes_init nbnodes site archi mobile None c
     = (Ok {| alias := pretty (c + 1); nbnodes := nbnodes;
              properties := {| archi := archi; site := site; mobile := mobile |} |},
        c + 1)) ∧
  (∀ nbnodes site archi mobile a c,
     _valid_archi archi = true →
     AliasNodes_init nbnodes site archi mobile (Some a) c
     = (Ok {| alias := str a; nbnodes := nbnodes;
              properties := {| archi := archi; site := site; mobile := mobile |} |},
        c)) ∧
  (∀ reqs : list request,
     let out := (construct_all reqs _alias_initial).1 in
     let n := Z.of_nat (length (auto_aliases out)) in
     auto_aliases out = pretty <$> seqZ 1 n ∧
     (construct_all reqs _alias_initial).2 = n ∧
     ∀ r res a x, (r, res) ∈ out → req_alias r = Some a → res = Ok x →
                  alias x = str a).
Proof.
  split; [|split].
  - intros. by rewrite AliasNodes_init_valid.
  - intros. by rewrite AliasNodes_init_valid.
  - intros reqs out n. pose proof (construct_all_auto reqs _alias_initial) as [H1 H2].
    split; [exact H1|]. split; [exact H2|].
    intros r res a x. apply construct_all_given.
Qed.

Lemma C9_alias_counter_witness :
  AliasNodes_init 5 "grenoble" "m3:at86rf231" false None 0
  = (Ok {| alias := "1"; nbnodes := 5;
           properties := {| archi := "m3:at86rf231"; site := "grenoble";
                            mobile := false |} |}, 1) ∧
  AliasNodes_init 2 "strasbourg" "wsn430:cc1101" true (Some (AliasInt 7)) 1
  = (Ok {| alias := "7"; nbnodes := 2;
           properties := {| archi := "wsn430:cc1101"; site := "strasbourg";
                            mobile := true |} |}, 1) ∧
  auto_aliases (construct_all demo_requests _alias_initial).1 = ["1"; "2"] ∧
  (construct_all demo_requests _alias_initial).2 = 2.
Proof.
  split; [|split; [|split]].
  - apply (proj1 C9_alias_counter 5 "grenoble" "m3:at86rf231" false 0). reflexivity.
  - apply (proj1 (proj2 C9_alias_counter) 2 "strasbourg" "wsn430:cc1101" true
                 (AliasInt 7) 1). reflexivity.
  - apply (proj1 (proj2 (proj2 C9_alias_counter) demo_requests)).
  - apply (proj1 (proj2 (proj2 (proj2 C9_alias_counter) demo_requests))).
Defined.

(** ** The state poller *)

(** Closes a decidable closed goal by evaluation. *)
Ltac by_evaluation := by apply (bool_decide_unpack _); vm_compute.

(** The module-level assignment of [STOPPED_STATES] yields the fixed set
    whenever the vocabulary knows both states. *)
Lemma STOPPED_STATES_from_str (vocabulary : list string) :
  "Terminated" ∈ vocabulary → "Error" ∈ vocabulary →
  (list_to_set <$> _states_from_str vocabulary "Terminated,Error")
  = Ok STOPPED_STATES.
Proof.
  intros Ht He. unfold _states_from_str, check_experiment_state.
  change (split "," "Terminated,Error") with ["Terminated"; "Error"].
  cbn [forallb]. by rewrite !bool_decide_eq_true_2.
Qed.

Section Poller.
Variables (clock : nat → Z) (state_fct : nat → string) (exp_str : string).
Variables (expected_states : gset string) (start_time : Z) (timeout : timeout_t).

Local Abbreviation loop := (wait_loop clock state_fct exp_str expected_states
                                  start_time timeout).

(** One turn of the loop on a state that is neither expected nor
    stopped: the poller sleeps and enters the next iteration. *)
Lemma wait_loop_continue (fuel i : nat) :
  _timeout (clock (S i)) start_time timeout = false →
  state_fct i ∉ expected_states → state_fct i ∉ STOPPED_STATES →
  loop (S fuel) i = loop fuel (S i).
Proof.
  intros Ht He Hs. simpl. rewrite Ht.
  by rewrite !bool_decide_eq_false_2.
Qed.

Lemma wait_loop_skip (k fuel i : nat) :
  (∀ j, (i ≤ j < i + k)%nat →
        _timeout (clock (S j)) start_time timeout = false ∧
        (state_fct j ∉ expected_states) ∧ (state_fct j ∉ STOPPED_STATES)) →
  loop (k + fuel) i = loop fuel (i + k).
Proof.
  revert i. induction k as [|k IH]; intros i Hk.
  - by rewrite Nat.add_0_r.
  - destruct (Hk i) as (Ht & He & Hs); [lia|].
    change (S k + fuel)%nat with (S (k + fuel)).
    rewrite wait_loop_continue by done.
    rewrite IH; [f_equal; lia|]. intros j Hj. apply Hk. lia.
Qed.

Lemma wait_loop_timeout (fuel i : nat) :
  _timeout (clock (S i)) start_time timeout = true →
  loop (S fuel) i = Some (mkPoll (Raise RuntimeError_timeout) i).
Proof. intros Ht. simpl. by rewrite Ht. Qed.

Lemma wait_loop_expected (fuel i : nat) :
  _timeout (clock (S i)) start_time timeout = false →
  state_fct i ∈ expected_states →
  loop (S fuel) i = Some (mkPoll (Ok (state_fct i)) (S i)).
Proof. intros Ht He. simpl. by rewrite Ht, bool_decide_eq_true_2. Qed.

Lemma wait_loop_stopped (fuel i : nat) :
  _timeout (clock (S i)) start_time timeout = false →
  state_fct i ∉ expected_states → state_fct i ∈ STOPPED_STATES →
  loop (S fuel) i
  = Some (mkPoll (Raise (RuntimeError_state exp_str (state_fct i))) (S i)).
Proof.
  intros Ht He Hs. simpl.
  by rewrite Ht, bool_decide_eq_false_2, bool_decide_eq_true_2.
Qed.

End Poller.

(** The check of [_timeout] is strict: at a zero timeout the loop goes on
    as long as the clock reads what it read at loop entry. *)
Lemma _timeout_zero (now start_time : Z) :
  _timeout now start_time (Ticks 0) = bool_decide (now > start_time).
Proof. unfold _timeout. by rewrite Z.add_0_r. Qed.

(** C5 (as amended): the check at the top of each iteration is strict,
    [time.time() > start_time + timeout].  With a timeout of 0 and a
    state function that only returns states that are neither expected
    nor stopped, [wait_state] raises the timeout error at the first check
    whose reading is strictly later than the reading at loop entry,
    having called the state function once for each earlier check: not at
    all when the clock has moved by the first check, exactly once when it
    has moved by the second check only. *)
Theorem C5_timeout_zero_strict (vocabulary : list string) (clock : nat → Z)
    (state_fct : nat → string) (exp_str states : string)
    (expected : list string) (step : Z) (k fuel : nat) :
  _states_from_str vocabulary states = Ok expected →
  (∀ i, (state_fct i ∉ expected) ∧ (state_fct i ∉ STOPPED_STATES)) →
  (∀ i, (i < k)%nat → clock (S i) ≤ clock 0%nat) →
  clock (S k) > clock 0%nat →
  (k < fuel)%nat →
  wait_state vocabulary clock state_fct exp_str states step (Ticks 0) fuel
  = Some (mkPoll (Raise RuntimeError_timeout) k).
Proof.
  intros Hs Hst Hstall Hmove Hfuel. unfold wait_state. rewrite Hs.
  replace fuel with (k + S (fuel - S k))%nat by lia.
  rewrite wait_loop_skip.
  - apply wait_loop_timeout. rewrite _timeout_zero. by apply bool_decide_eq_true_2.
  - intros j Hj. destruct (Hst j) as [He Hstop].
    rewrite _timeout_zero, elem_of_list_to_set. split; [|done].
    apply bool_decide_eq_false_2. specialize (Hstall j). lia.
Qed.

Lemma C5_timeout_zero_strict_witness :
  wait_state demo_vocabulary stalled_clock always_waiting "123" "Running" 5
             (Ticks 0) 10
  = Some (mkPoll (Raise RuntimeError_timeout) 1).
Proof.
  apply (C5_timeout_zero_strict demo_vocabulary stalled_clock always_waiting
           "123" "Running" ["Running"] 5 1 10).
  - reflexivity.
  - intros i. split; by_evaluation.
  - intros i Hi. assert (i = 0%nat) as -> by lia. by vm_compute.
  - reflexivity.
  - lia.
Defined.

(** C5 (the claim as stated fails): were the check inclusive, a timeout of
    0 would end the poll at the first check.  When the first reading in
    the loop equals the reading at loop entry the first check passes and
    the state function is called; with a clock whose first three readings
    coincide it is called a second time. *)
Lemma C5_counterexample :
  _timeout (stalled_clock 1) (stalled_clock 0) (Ticks 0) = false ∧
  wait_state demo_vocabulary stalled_clock always_waiting "123" "Running" 5
             (Ticks 0) 10
  = Some (mkPoll (Raise RuntimeError_timeout) 1) ∧
  wait_state demo_vocabulary frozen_clock always_waiting "123" "Running" 0
             (Ticks 0) 10
  = Some (mkPoll (Raise RuntimeError_timeout) 2).
Proof. by vm_compute. Qed.

(** C6: when the poller, before the timeout, observes a stopped state
    (Terminated or Error) that is not expected, no earlier state having
    ended the poll, [wait_state] raises the error that carries that
    state; and a state that is neither expected nor stopped never ends
    the loop: the next iteration is entered. *)
Theorem C6_stopped_state (vocabulary : list string) (clock : nat → Z)
    (state_fct : nat → string) (exp_str states : string)
    (expected : list string) (step : Z) (timeout : timeout_t) :
  _states_from_str vocabulary states = Ok expected →
  (∀ k fuel : nat,
     (k < fuel)%nat →
     (∀ j, (j ≤ k)%nat → _timeout (clock (S j)) (clock 0%nat) timeout = false) →
     (∀ j, (j < k)%nat → (state_fct j ∉ expected) ∧ (state_fct j ∉ STOPPED_STATES)) →
     state_fct k ∈ STOPPED_STATES → state_fct k ∉ expected →
     wait_state vocabulary clock state_fct exp_str states step timeout fuel
     = Some (mkPoll (Raise (RuntimeError_state exp_str (state_fct k))) (S k))) ∧
  (∀ i fuel : nat,
     _timeout (clock (S i)) (clock 0%nat) timeout = false →
     state_fct i ∉ expected → state_fct i ∉ STOPPED_STATES →
     wait_loop clock state_fct exp_str (list_to_set expected) (clock 0%nat)
               timeout (S fuel) i
     = wait_loop clock state_fct exp_str (list_to_set expected) (clock 0%nat)
                 timeout fuel (S i)).
Proof.
  intros Hs. split.
  - intros k fuel Hfuel Htime Hbefore Hstop Hexp. unfold wait_state. rewrite Hs.
    replace fuel with (k + S (fuel - S k))%nat by lia.
    rewrite wait_loop_skip.
    + apply wait_loop_stopped; [apply Htime; lia | | done].
      by rewrite elem_of_list_to_set.
    + intros j Hj. destruct (Hbefore j) as [He Hst]; [lia|].
      rewrite elem_of_list_to_set. split; [apply Htime; lia | done].
  - intros i fuel Ht He Hst. apply wait_loop_continue; [done| |done].
    by rewrite elem_of_list_to_set.
Qed.

Lemma C6_stopped_state_witness :
  wait_state demo_vocabulary Z.of_nat error_at_2 "123" "Running" 5 PlusInf 5
  = Some (mkPoll (Raise (RuntimeError_state "123" "Error")) 3) ∧
  wait_loop Z.of_nat error_at_2 "123" (list_to_set ["Running"]) 0 PlusInf 5 0
  = wait_loop Z.of_nat error_at_2 "123" (list_to_set ["Running"]) 0 PlusInf 4 1.
Proof.
  pose proof (C6_stopped_state demo_vocabulary Z.of_nat error_at_2 "123"
                "Running" ["Running"] 5 PlusInf eq_refl) as [Hraise Hgo].
  split.
  - apply (Hraise 2%nat 5%nat).
    + lia.
    + reflexivity.
    + intros j Hj. destruct j as [|[|j]]; [split; by_evaluation..|lia].
    + by_evaluation.
    + by_evaluation.
  - apply (Hgo 0%nat 4%nat); [reflexivity | by_evaluation..].
Defined.

(** ** Outcomes *)

Lemma bind_Ok {A B : Type} (r : result A) (f : A → result B) (b : B) :
  r ≫= f = Ok b ↔ ∃ a, r = Ok a ∧ f a = Ok b.
Proof.
  destruct r as [a|err]; simpl.
  - split; [by exists a | by intros (? & [= <-] & ?)].
  - split; [done | by intros (? & ? & ?)].
Qed.

Lemma bind_Raise {A B : Type} (r : result A) (f : A → result B) (err : error) :
  r ≫= f = Raise err ↔ r = Raise err ∨ ∃ a, r = Ok a ∧ f a = Raise err.
Proof.
  destruct r as [a|err']; simpl.
  - split; [intros ?; right; by exists a | by intros [?|(? & [= <-] & ?)]].
  - split.
    + intros [= ->]. by left.
    + intros [[= ->]|(a & Heq & _)]; [done | discriminate Heq].
Qed.

(** ** Sorting by key *)

Section Sorting.
Context `{NodeSortKey}.

Lemma insert_by_key_perm (x : string) (l : list string) :
  insert_by_key x l ≡ₚ x :: l.
Proof.
  induction l as [|y l IH]; simpl; [done|].
  destruct (key_le _ _); [done|]. by rewrite IH, Permutation_swap.
Qed.

Lemma sorted_perm (l : list string) : sorted l ≡ₚ l.
Proof.
  induction l as [|x l IH]; simpl; [done|].
  by rewrite insert_by_key_perm, IH.
Qed.

Lemma elem_of_sorted (x : string) (l : list string) : x ∈ sorted l ↔ x ∈ l.
Proof. by rewrite sorted_perm. Qed.

Lemma NoDup_sorted (l : list string) : NoDup (sorted l) ↔ NoDup l.
Proof. by rewrite sorted_perm. Qed.

(** A list already in order is left as it is. *)
Lemma insert_by_key_head (x : string) (l : list string) :
  HdRel key_order x l → insert_by_key x l = x :: l.
Proof.
  destruct l as [|y l]; simpl; [done|].
  intros Hhd. apply HdRel_inv in Hhd. unfold key_order in Hhd. by rewrite Hhd.
Qed.

Lemma sorted_of_Sorted (l : list string) : sorted_by_key l → sorted l = l.
Proof.
  induction 1 as [|x l Hl IH Hhd]; [done|].
  unfold sorted in *. simpl. rewrite IH. by apply insert_by_key_head.
Qed.

Lemma remove_dups_NoDup (l : list string) : NoDup l → remove_dups l = l.
Proof.
  induction 1 as [|x l Hx Hl IH]; simpl; [done|].
  destruct (decide_rel elem_of x l) as [?|_]; [done | by rewrite IH].
Qed.

Context `{!NodeSortKeyTotal}.

Lemma Sorted_insert_by_key (x : string) (l : list string) :
  sorted_by_key l → sorted_by_key (insert_by_key x l).
Proof.
  induction 1 as [|y l Hl IH Hhd]; simpl.
  - by repeat constructor.
  - destruct (key_le (node_url_sort_key x) (node_url_sort_key y)) eqn:Hxy.
    + constructor; [by constructor | by constructor].
    + constructor; [done|].
      assert (key_order y x) as Hyx.
      { destruct (key_le_total (node_url_sort_key x) (node_url_sort_key y));
          [congruence | done]. }
      destruct l as [|z l]; simpl in *; [by constructor|].
      destruct (key_le _ _); constructor; [done|].
      by apply HdRel_inv in Hhd.
Qed.

Lemma Sorted_sorted (l : list string) : sorted_by_key (sorted l).
Proof.
  induction l as [|x l IH]; simpl; [constructor|].
  by apply Sorted_insert_by_key.
Qed.

Lemma sorted_idemp (l : list string) : sorted (sorted l) = sorted l.
Proof. apply sorted_of_Sorted, Sorted_sorted. Qed.

Lemma node_set_idemp (l : list string) : node_set (node_set l) = node_set l.
Proof.
  unfold node_set. rewrite remove_dups_NoDup, sorted_idemp; [done|].
  apply NoDup_sorted, NoDup_remove_dups.
Qed.

End Sorting.

Lemma length_sort_key_total : @NodeSortKeyTotal length_sort_key.
Proof.
  intros a b. simpl in *. rewrite !Nat.leb_le. lia.
Qed.

(** ** The addressing mode and the registration of nodes *)

Section Registration.
Context `{NodeSortKey}.

Lemma _set_type_None (e : _Experiment) (t : string) :
  type e = None → _set_type e t = Ok (set_type e (Some t)).
Proof. intros He. unfold _set_type. by rewrite He. Qed.

Lemma _set_type_same (e : _Experiment) (t : string) :
  type e = Some t → _set_type e t = Ok (set_type e (Some t)).
Proof. intros He. unfold _set_type. rewrite He. by rewrite decide_False by auto. Qed.

Lemma _set_type_other (e : _Experiment) (t t' : string) :
  type e = Some t → t ≠ t' → _set_type e t' = Raise ValueError_type.
Proof. intros He Hne. unfold _set_type. rewrite He. by rewrite decide_True. Qed.

Lemma _set_type_Ok (e e' : _Experiment) (t : string) :
  _set_type e t = Ok e' →
  e' = set_type e (Some t) ∧ (type e = None ∨ type e = Some t).
Proof.
  unfold _set_type. destruct (type e) as [t'|]; [|intros [= <-]; auto].
  destruct (decide (t' ≠ t)) as [|Heq]; [done|].
  intros [= <-]. apply dec_stable in Heq as ->. auto.
Qed.

Lemma _set_type_Raise (e : _Experiment) (t : string) (err : error) :
  _set_type e t = Raise err →
  err = ValueError_type ∧ ∃ t', type e = Some t' ∧ t' ≠ t.
Proof.
  unfold _set_type. destruct (type e) as [t'|]; [|done].
  destruct (decide (t' ≠ t)); [|done]. intros [= <-]. eauto.
Qed.

Lemma hashable_nodes_addr (l : list string) :
  hashable_nodes (NodeAddr <$> l) = Ok l.
Proof. induction l as [|x l IH]; csimpl; [done|]. by rewrite IH. Qed.

Lemma hashable_nodes_Ok (ns : list node) (l : list string) :
  hashable_nodes ns = Ok l → ns = NodeAddr <$> l.
Proof.
  revert l. induction ns as [|[url|a|d] ns IH]; intros l; simpl; try done.
  - by intros [= <-].
  - intros (urls & Hns & [= <-])%bind_Ok. simpl. f_equal. by apply IH.
Qed.

Lemma hashable_nodes_Raise (ns : list node) (err : error) :
  hashable_nodes ns = Raise err → err = TypeError.
Proof.
  induction ns as [|[url|a|d] ns IH]; simpl; try done; try by intros [= <-].
  intros [Hr|(urls & _ & Hr)]%bind_Raise; [by apply IH | done].
Qed.

(** What [set_physical_nodes] does on an experiment whose nodes are the
    addresses [registered]. *)
Lemma set_physical_nodes_spec (e : _Experiment) (registered nodes_list : list string) :
  type e = None ∨ type e = Some "physical" →
  nodes e = NodeAddr <$> registered →
  set_physical_nodes e nodes_list
  = let _intersect :=
      list_of_set (list_to_set registered ∩ list_to_set nodes_list) in
    if decide (_intersect ≠ []) then Raise (ValueError_multiple _intersect)
    else Ok (set_nodes (set_type e (Some "physical"))
               (NodeAddr <$> sorted (list_of_set
                                       (list_to_set (registered ++ nodes_list))))).
Proof.
  intros Ht Hn. unfold set_physical_nodes.
  assert (_set_type e "physical" = Ok (set_type e (Some "physical"))) as ->.
  { destruct Ht; [by apply _set_type_None | by apply _set_type_same]. }
  simpl. rewrite Hn, hashable_nodes_addr. simpl.
  by destruct (decide _).
Qed.

Lemma set_physical_nodes_Raise (e : _Experiment) (nodes_list : list string)
    (err : error) :
  set_physical_nodes e nodes_list = Raise err →
  (err = ValueError_type ∧ ∃ t, type e = Some t ∧ t ≠ "physical") ∨
  err = TypeError ∨
  ∃ registered,
    nodes e = NodeAddr <$> registered ∧
    err = ValueError_multiple
            (list_of_set (list_to_set registered ∩ list_to_set nodes_list)) ∧
    list_of_set (list_to_set registered ∩ list_to_set nodes_list) ≠ [].
Proof.
  unfold set_physical_nodes.
  intros [Hr|(e1 & He1 & [Hr|(l & Hl & Hr)]%bind_Raise)]%bind_Raise.
  - left. by apply _set_type_Raise.
  - right; left. by eapply hashable_nodes_Raise.
  - right; right. apply _set_type_Ok in He1 as [-> _]. simpl in Hl.
    apply hashable_nodes_Ok in Hl. exists l. split; [done|].
    destruct (decide _) as [Hne|]; [|done]. by injection Hr as <-.
Qed.

Lemma set_physical_nodes_Ok (e e' : _Experiment) (nodes_list : list string) :
  set_physical_nodes e nodes_list = Ok e' →
  ∃ registered,
    nodes e = NodeAddr <$> registered ∧
    (type e = None ∨ type e = Some "physical") ∧
    list_to_set registered ∩ list_to_set nodes_list = (∅ : gset string) ∧
    e' = set_nodes (set_type e (Some "physical"))
           (NodeAddr <$> sorted (list_of_set
                                   (list_to_set (registered ++ nodes_list)))).
Proof.
  unfold set_physical_nodes.
  intros (e1 & He1 & (l & Hl & Hr)%bind_Ok)%bind_Ok.
  apply _set_type_Ok in He1 as [-> Ht]. simpl in Hl.
  apply hashable_nodes_Ok in Hl. exists l. split; [done|]. split; [done|].
  destruct (decide _) as [|Hempty]; [done|]. injection Hr as <-.
  split; [|done]. apply dec_stable in Hempty.
  by apply leibniz_equiv, elements_empty_iff.
Qed.

Lemma set_alias_nodes_Ok (e e' : _Experiment) (a : AliasNodes) :
  set_alias_nodes e a = Ok e' →
  (type e = None ∨ type e = Some "alias") ∧
  e' = set_nodes (set_type e (Some "alias")) (nodes e ++ [NodeAlias a]).
Proof.
  unfold set_alias_nodes. intros (e1 & He1 & [= <-])%bind_Ok.
  by apply _set_type_Ok in He1 as [-> Ht].
Qed.

Lemma set_alias_nodes_Raise (e : _Experiment) (a : AliasNodes) (err : error) :
  set_alias_nodes e a = Raise err →
  err = ValueError_type ∧ ∃ t, type e = Some t ∧ t ≠ "alias".
Proof.
  unfold set_alias_nodes. intros [Hr|(e1 & _ & Hr)]%bind_Raise; [|done].
  by apply _set_type_Raise.
Qed.

Lemma _register_nodes_Ok (e e' : _Experiment) (ns : nodes_arg) :
  _register_nodes e ns = Ok e' → type e' = type e.
Proof.
  unfold _register_nodes. destruct (type e) as [t|] eqn:Ht; [|done].
  destruct (decide (t = "physical")) as [->|?].
  - destruct ns as [l|a]; [|done].
    by intros (reg & _ & _ & _ & ->)%set_physical_nodes_Ok.
  - destruct (decide (t = "alias")) as [->|?]; [|done].
    destruct ns as [l|a]; [done|].
    by intros [_ ->]%set_alias_nodes_Ok.
Qed.

Lemma _register_nodes_not_type_error (e : _Experiment) (ns : nodes_arg) :
  _register_nodes e ns ≠ Raise ValueError_type.
Proof.
  unfold _register_nodes. destruct (type e) as [t|] eqn:Ht; [|done].
  destruct (decide (t = "physical")) as [->|?].
  - destruct ns as [l|a]; [|done].
    intros [(_ & t & Ht' & Hne)|[?|(reg & _ & ? & _)]]%set_physical_nodes_Raise;
      congruence.
  - destruct (decide (t = "alias")) as [->|?]; [|done].
    destruct ns as [l|a]; [done|].
    intros (_ & t & Ht' & Hne)%set_alias_nodes_Raise. congruence.
Qed.

Lemma extendvalues_Ok (m m' : AssociationsMap) (name : string) (refs : list string) :
  extendvalues m name refs = Ok m' →
  m' = {| assoctype := assoctype m;
          entries := extend_entries name refs (entries m) |}.
Proof. unfold extendvalues. destruct (decide _); [by intros [= <-] | done]. Qed.

Lemma extendvalues_Raise (m : AssociationsMap) (name : string)
    (refs : list string) (err : error) :
  extendvalues m name refs = Raise err →
  ∃ conflicts, err = ValueError_conflict (assoctype m) conflicts.
Proof.
  unfold extendvalues. destruct (decide _); [done|]. intros [= <-]. eauto.
Qed.

Lemma extend_firmwareassociations_Ok (e e' : _Experiment) name refs :
  extend_firmwareassociations e name refs = Ok e' →
  ∃ m, e' = set_firmwareassociations e (Some m) ∧
       extendvalues (setattr_if_none (firmwareassociations e)
                       (AssociationsMap_new "firmware")) name refs = Ok m.
Proof.
  unfold extend_firmwareassociations. intros (m & Hm & [= <-])%bind_Ok. eauto.
Qed.

Lemma extend_profileassociations_Ok (e e' : _Experiment) name refs :
  extend_profileassociations e name refs = Ok e' →
  ∃ m, e' = set_profileassociations e (Some m) ∧
       extendvalues (setattr_if_none (profileassociations e)
                       (AssociationsMap_new "profile")) name refs = Ok m.
Proof.
  unfold extend_profileassociations. intros (m & Hm & [= <-])%bind_Ok. eauto.
Qed.

Lemma _add_nodes_association_Ok (e e' : _Experiment) refs assoctype assocname :
  _add_nodes_association e refs assoctype assocname = Ok e' →
  ∃ m, e' = set_associations e
              (Some (<[assoctype := m]> (setattr_if_none (associations e) ∅))) ∧
       extendvalues
         (default (AssociationsMap_new assoctype)
                  (setattr_if_none (associations e) ∅ !! assoctype))
         (nodes_association_name assoctype assocname) refs = Ok m.
Proof.
  unfold _add_nodes_association. intros (m & Hm & [= <-])%bind_Ok. eauto.
Qed.

(** The association steps leave the mode and the nodes alone. *)
Lemma add_other_associations_Ok (e e' : _Experiment) refs assocs :
  add_other_associations e refs assocs = Ok e' →
  type e' = type e ∧ nodes e' = nodes e ∧
  firmwareassociations e' = firmwareassociations e ∧
  profileassociations e' = profileassociations e.
Proof.
  revert e. induction assocs as [|[t n] assocs IH]; intros e; simpl.
  - by intros [= <-].
  - intros (e1 & He1 & He')%bind_Ok.
    apply _add_nodes_association_Ok in He1 as (m & -> & _).
    by apply IH in He' as (-> & -> & -> & ->).
Qed.

Lemma add_other_associations_Raise (e : _Experiment) refs assocs err :
  add_other_associations e refs assocs = Raise err →
  ∃ t conflicts, err = ValueError_conflict t conflicts.
Proof.
  revert e. induction assocs as [|[t n] assocs IH]; intros e; simpl; [done|].
  intros [Hr|(e1 & _ & Hr)]%bind_Raise; [|by eauto].
  unfold _add_nodes_association in Hr.
  apply bind_Raise in Hr as [Hr|(m & _ & Hr)]; [|done].
  apply extendvalues_Raise in Hr as [c ->]. eauto.
Qed.

End Registration.

Section Addition.
Context `{NodeSortKey}.

Lemma _nodes_to_assoc_Raise (e : _Experiment) (ns : nodes_arg) (err : error) :
  _nodes_to_assoc e ns = Raise err → err = TypeError ∨ err = AttributeError.
Proof.
  unfold _nodes_to_assoc. destruct (decide _), ns; try done; intros [= <-]; auto.
Qed.

(** A successful addition leaves the experiment in the mode of the
    resources, which is the mode it had if it had one. *)
Lemma add_exp_resources_type (e e' : _Experiment) (res : resources) :
  add_exp_resources e res = Ok e' →
  type e' = Some (res_type res) ∧
  (type e = None ∨ type e = Some (res_type res)).
Proof.
  unfold add_exp_resources.
  intros (e1 & He1 & (e2 & He2 & (refs & _ & (e3 & He3 & (e4 & He4 & He5)%bind_Ok)
            %bind_Ok)%bind_Ok)%bind_Ok)%bind_Ok.
  apply _set_type_Ok in He1 as [-> Ht]. split; [|done].
  apply _register_nodes_Ok in He2. simpl in He2.
  apply add_other_associations_Ok in He5 as (-> & _).
  assert (type e3 = type e2) as He32.
  { destruct (res_firmware res); [|by injection He3 as <-].
    by apply extend_firmwareassociations_Ok in He3 as (m & -> & _). }
  assert (type e4 = type e3) as He43.
  { destruct (res_profile res); [|by injection He4 as <-].
    by apply extend_profileassociations_Ok in He4 as (m & -> & _). }
  congruence.
Qed.

(** Only the check of [_set_type] raises the mode conflict. *)
Lemma add_exp_resources_type_error (e : _Experiment) (res : resources) :
  add_exp_resources e res = Raise ValueError_type →
  ∃ t, type e = Some t ∧ t ≠ res_type res.
Proof.
  unfold add_exp_resources.
  intros [Hr|(e1 & He1 & Hr)]%bind_Raise; [by apply _set_type_Raise in Hr as [_ ?]|].
  exfalso.
  apply bind_Raise in Hr as [Hr|(e2 & He2 & Hr)];
    [by apply _register_nodes_not_type_error in Hr|].
  apply bind_Raise in Hr as [Hr|(refs & Hrefs & Hr)];
    [by apply _nodes_to_assoc_Raise in Hr as [?|?]|].
  apply bind_Raise in Hr as [Hr|(e3 & He3 & Hr)].
  { destruct (res_firmware res); [|done].
    unfold extend_firmwareassociations in Hr.
    apply bind_Raise in Hr as [Hr|(m & _ & Hr)]; [|done].
    by apply extendvalues_Raise in Hr as [c ?]. }
  apply bind_Raise in Hr as [Hr|(e4 & He4 & Hr)].
  { destruct (res_profile res); [|done].
    unfold extend_profileassociations in Hr.
    apply bind_Raise in Hr as [Hr|(m & _ & Hr)]; [|done].
    by apply extendvalues_Raise in Hr as [c ?]. }
  by apply add_other_associations_Raise in Hr as (t & c & ?).
Qed.

Lemma add_all_resources_type (e e' : _Experiment) (rs : list resources) (t : string) :
  type e = Some t → add_all_resources e rs = Ok e' →
  type e' = Some t ∧ Forall (λ res, res_type res = t) rs.
Proof.
  revert e. induction rs as [|res rs IH]; intros e Ht; simpl.
  - intros [= <-]. by split.
  - intros (e1 & He1 & He')%bind_Ok.
    apply add_exp_resources_type in He1 as [Ht1 [?|Ht0]]; [congruence|].
    assert (res_type res = t) as Hres by congruence.
    rewrite Hres in Ht1. destruct (IH e1 Ht1 He') as [? ?].
    split; [done | by constructor].
Qed.

(** C2: the first resources added fix the addressing mode; from then on
    resources of another type, and [set_physical_nodes] or
    [set_alias_nodes] against the mode, raise the mode conflict, in both
    orders; resources of the established type never raise it. *)
Theorem C2_addressing_mode (e : _Experiment) :
  (∀ res rs e', type e = None → add_all_resources e (res :: rs) = Ok e' →
                type e' = Some (res_type res) ∧
                Forall (λ r, res_type r = res_type res) rs) ∧
  (∀ t, type e = Some t →
     (∀ res, res_type res ≠ t → add_exp_resources e res = Raise ValueError_type) ∧
     (∀ nodes_list, t ≠ "physical" →
                    set_physical_nodes e nodes_list = Raise ValueError_type) ∧
     (∀ alias_nodes, t ≠ "alias" →
                     set_alias_nodes e alias_nodes = Raise ValueError_type) ∧
     (∀ res, res_type res = t → add_exp_resources e res ≠ Raise ValueError_type) ∧
     (∀ nodes_list, t = "physical" →
                    set_physical_nodes e nodes_list ≠ Raise ValueError_type) ∧
     (∀ alias_nodes, t = "alias" →
                     set_alias_nodes e alias_nodes ≠ Raise ValueError_type) ∧
     (∀ res e', add_exp_resources e res = Ok e' → type e' = Some t)).
Proof.
  split.
  - intros res rs e' Ht. simpl. intros (e1 & He1 & He')%bind_Ok.
    apply add_exp_resources_type in He1 as [Ht1 _].
    by eapply add_all_resources_type.
  - intros t Ht. repeat split.
    + intros res Hne. unfold add_exp_resources.
      by rewrite (_set_type_other e t) by done.
    + intros l Hne. unfold set_physical_nodes.
      by rewrite (_set_type_other e t) by done.
    + intros a Hne. unfold set_alias_nodes.
      by rewrite (_set_type_other e t) by done.
    + intros res Hres (t' & Ht' & Hne)%add_exp_resources_type_error. congruence.
    + intros l ->.
      intros [(_ & t' & Ht' & Hne)|[?|(reg & _ & ? & _)]]%set_physical_nodes_Raise;
        congruence.
    + intros a -> (_ & t' & Ht' & Hne)%set_alias_nodes_Raise. congruence.
    + intros res e' [Ht1 [?|Ht0]]%add_exp_resources_type; congruence.
Qed.

End Addition.

Lemma C2_addressing_mode_witness :
  (type (demo_built [demo_group_1; demo_group_2]) = Some "physical" ∧
   Forall (λ r, res_type r = "physical") [demo_group_2]) ∧
  add_exp_resources (H:=length_sort_key) (demo_built [demo_group_1]) demo_alias_group
  = Raise ValueError_type ∧
  add_exp_resources (H:=length_sort_key) (demo_built [demo_alias_group]) demo_group_1
  = Raise ValueError_type ∧
  set_physical_nodes (H:=length_sort_key) (demo_built [demo_alias_group])
                     ["m3-1.grenoble.iot-lab.info"]
  = Raise ValueError_type ∧
  set_alias_nodes (demo_built [demo_group_1]) demo_alias_nodes
  = Raise ValueError_type ∧
  add_exp_resources (H:=length_sort_key) (demo_built [demo_group_1]) demo_group_3
  ≠ Raise ValueError_type.
Proof.
  pose proof (@C2_addressing_mode length_sort_key demo_experiment) as [Hfirst _].
  pose proof (@C2_addressing_mode length_sort_key (demo_built [demo_group_1]))
    as [_ Hphys].
  pose proof (@C2_addressing_mode length_sort_key (demo_built [demo_alias_group]))
    as [_ Halias].
  specialize (Hphys "physical" eq_refl) as (Hp1 & _ & Hp3 & Hp4 & _).
  specialize (Halias "alias" eq_refl) as (Ha1 & Ha2 & _).
  split; [|split; [|split; [|split; [|split]]]].
  - apply (Hfirst demo_group_1 [demo_group_2]); [reflexivity | by vm_compute].
  - by apply Hp1.
  - by apply Ha1.
  - by apply Ha2.
  - by apply Hp3.
  - by apply Hp4.
Defined.

(** ** Duplicate physical nodes *)

Section PhysicalNodes.
Context `{NodeSortKey}.

Lemma elem_of_NodeAddr (x : string) (l : list string) :
  NodeAddr x ∈ NodeAddr <$> l ↔ x ∈ l.
Proof.
  rewrite list_elem_of_fmap. split; [|by eauto].
  by intros (y & [= ->] & Hy).
Qed.

Lemma elem_of_intersect (x : string) (l k : list string) :
  x ∈ list_of_set (list_to_set l ∩ list_to_set k) ↔ x ∈ l ∧ x ∈ k.
Proof.
  unfold list_of_set.
  by rewrite elem_of_elements, elem_of_intersection, !elem_of_list_to_set.
Qed.

Lemma intersect_nil (l k : list string) :
  list_of_set (list_to_set l ∩ list_to_set k) = [] ↔ ∀ x, x ∈ l → x ∉ k.
Proof.
  split.
  - intros Hnil x Hl Hk.
    assert (x ∈ list_of_set (list_to_set l ∩ list_to_set k)) as Hx
      by by apply elem_of_intersect.
    rewrite Hnil in Hx. by apply elem_of_nil in Hx.
  - intros Hdisj.
    destruct (list_of_set (list_to_set l ∩ list_to_set k)) as [|x r] eqn:Hl; [done|].
    assert (x ∈ l ∧ x ∈ k) as [? ?].
    { apply elem_of_intersect. rewrite Hl. by left. }
    by destruct (Hdisj x).
Qed.

Context `{!NodeSortKeyTotal}.

(** C10: an address listed twice in the resources being added raises
    nothing and is kept once; after every successful call of
    [set_physical_nodes] the nodes of the experiment are free of
    duplicates and in the order of the key; the duplicate-node error is
    raised only for addresses registered by earlier resources. *)
Theorem C10_duplicates_within_group (e : _Experiment) (nodes_list : list string) :
  (∀ e', set_physical_nodes e nodes_list = Ok e' →
     ∃ l, nodes e' = NodeAddr <$> l ∧ NoDup l ∧ sorted_by_key l ∧
          ∀ x, x ∈ l ↔ NodeAddr x ∈ nodes e ∨ x ∈ nodes_list) ∧
  (∀ registered,
     type e = None ∨ type e = Some "physical" →
     nodes e = NodeAddr <$> registered →
     (∀ x, x ∈ registered → x ∉ nodes_list) →
     ∃ e', set_physical_nodes e nodes_list = Ok e') ∧
  (∀ reported,
     set_physical_nodes e nodes_list = Raise (ValueError_multiple reported) →
     reported ≠ [] ∧ ∀ x, x ∈ reported → NodeAddr x ∈ nodes e ∧ x ∈ nodes_list).
Proof.
  split; [|split].
  - intros e' (reg & Hn & _ & _ & ->)%set_physical_nodes_Ok.
    eexists. split; [reflexivity|].
    split; [by apply NoDup_sorted, NoDup_elements|].
    split; [apply Sorted_sorted|].
    intros x. unfold list_of_set.
    by rewrite elem_of_sorted, elem_of_elements, elem_of_list_to_set,
               elem_of_app, Hn, elem_of_NodeAddr.
  - intros reg Ht Hn Hdisj.
    rewrite (set_physical_nodes_spec e reg) by done. cbv zeta.
    apply intersect_nil in Hdisj. rewrite decide_False by (by intros ?). eauto.
  - intros reported
      [(? & _)|[?|(reg & Hn & [= ->] & Hne)]]%set_physical_nodes_Raise; [done..|].
    split; [done|]. intros x. by rewrite Hn, elem_of_NodeAddr, elem_of_intersect.
Qed.

End PhysicalNodes.

Lemma C10_duplicates_within_group_witness :
  (∃ l, nodes (demo_built [demo_group_1]) = NodeAddr <$> l ∧ NoDup l ∧
        sorted_by_key (H:=length_sort_key) l ∧
        ∀ x, x ∈ l ↔
             NodeAddr x ∈ nodes demo_experiment ∨
             x ∈ ["m3-2.grenoble.iot-lab.info"; "m3-1.grenoble.iot-lab.info";
                  "m3-2.grenoble.iot-lab.info"]) ∧
  (∃ e', set_physical_nodes (H:=length_sort_key) demo_experiment
           ["m3-2.grenoble.iot-lab.info"; "m3-1.grenoble.iot-lab.info";
            "m3-2.grenoble.iot-lab.info"] = Ok e').
Proof.
  pose proof (@C10_duplicates_within_group length_sort_key length_sort_key_total
                demo_experiment
                ["m3-2.grenoble.iot-lab.info"; "m3-1.grenoble.iot-lab.info";
                 "m3-2.grenoble.iot-lab.info"]) as (Hok & Hdup & _).
  split.
  - destruct (Hok (set_nodes (set_type demo_experiment (Some "physical"))
                     (nodes (demo_built [demo_group_1])))) as (l & Hl & Hrest).
    { by vm_compute. }
    exists l. split; [exact Hl | exact Hrest].
  - apply (Hdup []); [by left | reflexivity |].
    intros x Hx. by apply elem_of_nil in Hx.
Defined.

(** ** Association maps *)

Section Associations.
Context `{NodeSortKey}.

Lemma elem_of_node_set (x : string) (l : list string) : x ∈ node_set l ↔ x ∈ l.
Proof. unfold node_set. by rewrite elem_of_sorted, elem_of_remove_dups. Qed.

(** Extending a map keeps the value names in first-seen order. *)
Lemma keys_extend_entries (name : string) (refs : list string) (es : list entry) :
  fst <$> extend_entries name refs es
  = if decide (name ∈ fst <$> es) then fst <$> es else (fst <$> es) ++ [name].
Proof.
  induction es as [|[k held] es IH]; [done|].
  cbn [extend_entries]. change (((k, held) :: es).*1) with (k :: es.*1).
  destruct (decide (k = name)) as [->|Hne].
  - rewrite decide_True by (by left). done.
  - change (((k, held) :: extend_entries name refs es).*1)
      with (k :: (extend_entries name refs es).*1). rewrite IH.
    destruct (decide (name ∈ fst <$> es)) as [Hin|Hin].
    + rewrite decide_True by (by right). done.
    + rewrite decide_False; [done|].
      intros [?|?]%elem_of_cons; congruence.
Qed.

Lemma extend_entries_fresh (name : string) (refs : list string) (es : list entry) :
  name ∉ fst <$> es → extend_entries name refs es = es ++ [(name, node_set refs)].
Proof.
  induction es as [|[k held] es IH]; csimpl; [done|].
  intros Hin. apply not_elem_of_cons in Hin as [Hne Hin].
  rewrite decide_False by done. by rewrite IH.
Qed.

(** The references just added are held under the name. *)
Lemma recorded_extend_entries (name : string) (refs : list string) (es : list entry) :
  ∃ held, (name, held) ∈ extend_entries name refs es ∧ refs ⊆ held.
Proof.
  induction es as [|[k held] es (held' & Hin & Hsub)]; simpl.
  - exists (node_set refs). split; [by left|].
    intros x Hx. by apply elem_of_node_set.
  - destruct (decide (k = name)) as [->|Hne].
    + exists (node_set (held ++ refs)). split; [by left|].
      intros x Hx. apply elem_of_node_set, elem_of_app. by right.
    + exists held'. split; [by right | done].
Qed.

(** What a map holds under a name is still held after an extension. *)
Lemma recorded_extend_entries_mono (name name' : string) (held refs' : list string)
    (es : list entry) :
  (name, held) ∈ es →
  ∃ held', (name, held') ∈ extend_entries name' refs' es ∧ held ⊆ held'.
Proof.
  induction es as [|[k h] es IH]; simpl; [by intros ?%elem_of_nil|].
  intros [[= <- <-]|Hin]%elem_of_cons.
  - destruct (decide (name = name')) as [->|Hne].
    + exists (node_set (held ++ refs')). split; [by left|].
      intros x Hx. apply elem_of_node_set, elem_of_app. by left.
    + exists held. split; [by left | done].
  - destruct (decide (k = name')) as [->|Hne].
    + exists held. split; [by right | done].
    + destruct (IH Hin) as (held' & Hin' & Hsub).
      exists held'. split; [by right | done].
Qed.

Lemma recorded_extendvalues (m m' : AssociationsMap) (name : string)
    (refs : list string) :
  extendvalues m name refs = Ok m' → recorded m' name refs.
Proof. intros ->%extendvalues_Ok. apply recorded_extend_entries. Qed.

Lemma recorded_extendvalues_mono (m m' : AssociationsMap) (name name' : string)
    (refs refs' : list string) :
  recorded m name refs → extendvalues m name' refs' = Ok m' →
  recorded m' name refs.
Proof.
  intros (held & Hin & Hsub) ->%extendvalues_Ok. simpl.
  destruct (recorded_extend_entries_mono name name' held refs' _ Hin)
    as (held' & Hin' & Hsub').
  exists held'. split; [done|]. by etrans.
Qed.

End Associations.

(** ** File basenames *)

Lemma rfind_lower_bound (c : ascii) (s : string) : -1 ≤ rfind c s.
Proof.
  induction s as [|a s IH]; simpl; [lia|].
  case_bool_decide; [lia|]. destruct (Ascii.eqb a c); lia.
Qed.

Lemma substring_all (s : string) : String.substring 0 (String.length s) s = s.
Proof. induction s as [|a s IH]; simpl; [done | by rewrite IH]. Qed.

(** A name without a slash is its own basename. *)
Lemma basename_no_slash (s : string) : rfind "/" s = -1 → basename s = s.
Proof. intros Hs. unfold basename. rewrite Hs. simpl. rewrite Nat.sub_0_r. apply substring_all. Qed.

(** Characters in front of a later slash are dropped. *)
Lemma basename_skip (a : ascii) (r : string) :
  0 ≤ rfind "/" r → basename (String a r) = basename r.
Proof.
  intros Hr. unfold basename. simpl rfind.
  rewrite bool_decide_eq_true_2 by done.
  replace (Z.to_nat (rfind "/" r + 1 + 1)) with (S (Z.to_nat (rfind "/" r + 1))) by lia.
  reflexivity.
Qed.

Lemma basename_after_slash (f : string) :
  rfind "/" f = -1 → basename (String "/" f) = f.
Proof.
  intros Hf. unfold basename. simpl rfind. rewrite Hf.
  rewrite bool_decide_eq_false_2 by lia. simpl. rewrite Nat.sub_0_r.
  apply substring_all.
Qed.

Lemma rfind_after_slash (d f : string) : 0 ≤ rfind "/" (d +:+ String "/" f).
Proof.
  induction d as [|a d IH]; rewrite ?string_app_cons.
  - change ("" +:+ String "/" f) with (String "/" f). simpl.
    pose proof (rfind_lower_bound "/" f). case_bool_decide; lia.
  - simpl. rewrite bool_decide_eq_true_2 by done. lia.
Qed.

(** The basename of [d/f] is [f] when [f] has no slash. *)
Lemma basename_path (d f : string) :
  rfind "/" f = -1 → basename (d +:+ String "/" f) = f.
Proof.
  intros Hf. induction d as [|a d IH].
  - by apply basename_after_slash.
  - rewrite string_app_cons, basename_skip; [done | apply rfind_after_slash].
Qed.

(** A basename has no slash left, so taking it twice changes nothing. *)
Lemma rfind_basename (s : string) : rfind "/" (basename s) = -1.
Proof.
  induction s as [|a s IH]; [done|].
  destruct (decide (0 ≤ rfind "/" s)) as [Hs|Hs].
  - by rewrite basename_skip.
  - assert (rfind "/" s = -1) as Hs' by (pose proof (rfind_lower_bound "/" s); lia).
    destruct (Ascii.eqb_spec a "/") as [->|Hne].
    + by rewrite basename_after_slash.
    + assert (rfind "/" (String a s) = -1) as Has.
      { simpl. rewrite bool_decide_eq_false_2 by done.
        by destruct (Ascii.eqb_spec a "/"). }
      by rewrite basename_no_slash.
Qed.

Lemma basename_idemp (s : string) : basename (basename s) = basename s.
Proof. apply basename_no_slash, rfind_basename. Qed.

(** ** Value names *)

Lemma nodes_association_name_firmware (value : string) :
  nodes_association_name "firmware" value = basename value.
Proof. reflexivity. Qed.

Lemma nodes_association_name_other (assoctype value : string) :
  assoctype ≠ "firmware" → nodes_association_name assoctype value = value.
Proof.
  intros Hne. unfold nodes_association_name, _basename_if_in.
  rewrite bool_decide_eq_false_2; [done|].
  unfold NODES_ASSOCIATIONS_FILE_ASSOCS. by rewrite list_elem_of_singleton.
Qed.

Section ValueNames.
Context `{NodeSortKey}.

Lemma _nodes_to_assoc_Ok (e : _Experiment) (res : resources) (refs : list string) :
  _nodes_to_assoc e (res_nodes res) = Ok refs → refs = association_subject res.
Proof.
  unfold _nodes_to_assoc, association_subject.
  destruct (decide _), (res_nodes res); try done; by intros [= <-].
Qed.

(** The steps of a successful addition. *)
Lemma add_exp_resources_Ok (e e' : _Experiment) (res : resources) :
  add_exp_resources e res = Ok e' →
  ∃ e2 e3 e4,
    _register_nodes (set_type e (Some (res_type res))) (res_nodes res) = Ok e2 ∧
    match res_firmware res with
    | Some firmware =>
        extend_firmwareassociations e2
          (nodes_association_name "firmware" firmware) (association_subject res)
    | None => Ok e2
    end = Ok e3 ∧
    match res_profile res with
    | Some profile =>
        extend_profileassociations e3
          (nodes_association_name "profile" profile) (association_subject res)
    | None => Ok e3
    end = Ok e4 ∧
    add_other_associations e4 (association_subject res) (res_associations res)
    = Ok e'.
Proof.
  unfold add_exp_resources.
  intros (e1 & He1 & (e2 & He2 & (refs & Hrefs & (e3 & He3 & (e4 & He4 & He5)
            %bind_Ok)%bind_Ok)%bind_Ok)%bind_Ok)%bind_Ok.
  apply _set_type_Ok in He1 as [-> _].
  apply _nodes_to_assoc_Ok in Hrefs as ->.
  by exists e2, e3, e4.
Qed.

Lemma _add_nodes_association_recorded (e e' : _Experiment) refs t n :
  _add_nodes_association e refs t n = Ok e' →
  recorded_other e' t (nodes_association_name t n) refs.
Proof.
  intros He'. apply _add_nodes_association_Ok in He' as (m & -> & Hm).
  eexists _, m. split; [reflexivity|]. split; [apply lookup_insert_eq|].
  by eapply recorded_extendvalues.
Qed.

Lemma _add_nodes_association_mono (e e' : _Experiment) refs refs' t t' name n' :
  recorded_other e t name refs →
  _add_nodes_association e refs' t' n' = Ok e' →
  recorded_other e' t name refs.
Proof.
  intros (d & m & Hd & Hm & Hrec) He'.
  apply _add_nodes_association_Ok in He' as (m' & -> & Hm').
  rewrite Hd in *. simpl in *.
  destruct (decide (t' = t)) as [->|Hne].
  - rewrite Hm in Hm'. simpl in Hm'.
    eexists _, m'. split; [reflexivity|]. split; [apply lookup_insert_eq|].
    by eapply recorded_extendvalues_mono.
  - eexists _, m. split; [reflexivity|]. split; [|done].
    by rewrite lookup_insert_ne.
Qed.

Lemma add_other_associations_mono (e e' : _Experiment) refs refs' t name assocs :
  recorded_other e t name refs →
  add_other_associations e refs' assocs = Ok e' →
  recorded_other e' t name refs.
Proof.
  revert e. induction assocs as [|[t' n'] assocs IH]; intros e Hrec; simpl.
  - by intros [= <-].
  - intros (e1 & He1 & He')%bind_Ok.
    eapply IH; [|done]. by eapply _add_nodes_association_mono.
Qed.

Lemma add_other_associations_recorded (e e' : _Experiment) refs assocs t n :
  add_other_associations e refs assocs = Ok e' → (t, n) ∈ assocs →
  recorded_other e' t (nodes_association_name t n) refs.
Proof.
  revert e. induction assocs as [|[t' n'] assocs IH]; intros e; simpl.
  - by intros _ ?%elem_of_nil.
  - intros (e1 & He1 & He')%bind_Ok [[= -> ->]|Hin]%elem_of_cons; [|by eauto].
    eapply add_other_associations_mono; [|exact He'].
    apply _add_nodes_association_recorded with e. exact He1.
Qed.

(** C8: when resources are added, the firmware is recorded under the
    basename of its path, and the profile and every other association
    whose type is not [firmware] are recorded under their name as given;
    each is recorded for the nodes (or the alias) of the resources. *)
Theorem C8_value_names (e e' : _Experiment) (res : resources) :
  add_exp_resources e res = Ok e' →
  (∀ firmware, res_firmware res = Some firmware →
     ∃ m, firmwareassociations e' = Some m ∧
          recorded m (basename firmware) (association_subject res)) ∧
  (∀ profile, res_profile res = Some profile →
     ∃ m, profileassociations e' = Some m ∧
          recorded m profile (association_subject res)) ∧
  (∀ assoctype assocname,
     (assoctype, assocname) ∈ res_associations res → assoctype ≠ "firmware" →
     recorded_other e' assoctype assocname (association_subject res)) ∧
  (∀ assocname,
     ("firmware", assocname) ∈ res_associations res →
     recorded_other e' "firmware" (basename assocname) (association_subject res)).
Proof.
  intros (e2 & e3 & e4 & He2 & He3 & He4 & He')%add_exp_resources_Ok.
  pose proof (add_other_associations_Ok _ _ _ _ He') as (_ & _ & Hf & Hp).
  split; [|split; [|split]].
  - intros firmware Hfw. rewrite Hfw in He3.
    apply extend_firmwareassociations_Ok in He3 as (m & -> & Hm).
    exists m. split.
    + rewrite Hf. destruct (res_profile res); [|by injection He4 as <-].
      by apply extend_profileassociations_Ok in He4 as (m' & -> & _).
    + rewrite <-nodes_association_name_firmware. by eapply recorded_extendvalues.
  - intros profile Hpr. rewrite Hpr in He4.
    apply extend_profileassociations_Ok in He4 as (m & -> & Hm).
    exists m. split; [by rewrite Hp|].
    rewrite <-(nodes_association_name_other "profile" profile) by done.
    by eapply recorded_extendvalues.
  - intros t n Hin Hne.
    rewrite <-(nodes_association_name_other t n) by done.
    by eapply add_other_associations_recorded.
  - intros n Hin. rewrite <-nodes_association_name_firmware.
    by eapply add_other_associations_recorded.
Qed.

End ValueNames.

Lemma C8_value_names_witness :
  (∃ m, firmwareassociations (demo_built [demo_group_1]) = Some m ∧
        recorded m "b.elf" (association_subject demo_group_1)) ∧
  (∃ m, profileassociations (demo_built [demo_group_1]) = Some m ∧
        recorded m "battery" (association_subject demo_group_1)) ∧
  recorded_other (demo_built [demo_group_1]) "script" "scripts/run.sh"
                 (association_subject demo_group_1) ∧
  recorded_other (demo_built [demo_alias_group]) "firmware" "c.elf" ["1"].
Proof.
  pose proof (@C8_value_names length_sort_key demo_experiment
                (demo_built [demo_group_1]) demo_group_1 eq_refl)
    as (Hfw & Hpr & Hother & _).
  pose proof (@C8_value_names length_sort_key demo_experiment
                (demo_built [demo_alias_group]) demo_alias_group eq_refl)
    as (_ & _ & _ & Hfile).
  split; [|split; [|split]].
  - by apply (Hfw "firmwares/b.elf").
  - by apply (Hpr "battery").
  - apply (Hother "script" "scripts/run.sh"); [by left | done].
  - apply (Hfile "other/c.elf"). by left.
Defined.

(** ** Required file names *)

Lemma first_seen_from_NoDup (seen l : list string) :
  NoDup seen →
  NoDup (foldl (λ seen x, if decide (x ∈ seen) then seen else seen ++ [x]) seen l).
Proof.
  revert seen. induction l as [|x l IH]; intros seen Hseen; simpl; [done|].
  apply IH. destruct (decide (x ∈ seen)); [done|].
  apply NoDup_app. split; [done|]. split; [|apply NoDup_singleton].
  intros y Hy ->%list_elem_of_singleton. done.
Qed.

Lemma elem_of_first_seen_from (seen l : list string) (y : string) :
  y ∈ foldl (λ seen x, if decide (x ∈ seen) then seen else seen ++ [x]) seen l
  ↔ y ∈ seen ∨ y ∈ l.
Proof.
  revert seen. induction l as [|x l IH]; intros seen; simpl.
  - split; [by left | by intros [?|?%elem_of_nil]].
  - rewrite IH, elem_of_cons. destruct (decide (x ∈ seen)) as [Hx|Hx].
    + split; [intros [?|?]; auto | intros [?|[->|?]]; auto].
    + rewrite elem_of_app, list_elem_of_singleton. tauto.
Qed.

Lemma NoDup_first_seen (l : list string) : NoDup (first_seen l).
Proof. apply first_seen_from_NoDup, NoDup_nil_2. Qed.

Lemma elem_of_first_seen (l : list string) (y : string) : y ∈ first_seen l ↔ y ∈ l.
Proof.
  unfold first_seen. rewrite elem_of_first_seen_from.
  split; [by intros [?%elem_of_nil|?] | by right].
Qed.

Lemma elem_of_firmware_names (rs : list resources) (x : string) :
  x ∈ firmware_names rs ↔
  ∃ res firmware, res ∈ rs ∧ res_firmware res = Some firmware ∧
                  x = basename firmware.
Proof.
  unfold firmware_names. rewrite list_elem_of_omap. split.
  - intros (res & Hres & Hx). destruct (res_firmware res) as [f|] eqn:Hf; [|done].
    injection Hx as <-. by exists res, f.
  - intros (res & f & Hres & Hf & ->). exists res. by rewrite Hf.
Qed.

Section FileNames.
Context `{NodeSortKey}.

Lemma _register_nodes_associations (e e' : _Experiment) (ns : nodes_arg) :
  _register_nodes e ns = Ok e' →
  firmwareassociations e' = firmwareassociations e ∧
  profileassociations e' = profileassociations e ∧
  associations e' = associations e.
Proof.
  unfold _register_nodes. destruct (type e) as [t|]; [|done].
  destruct (decide (t = "physical")) as [->|?].
  - destruct ns as [l|a]; [|done].
    by intros (reg & _ & _ & _ & ->)%set_physical_nodes_Ok.
  - destruct (decide (t = "alias")) as [->|?]; [|done].
    destruct ns as [l|a]; [done|].
    by intros [_ ->]%set_alias_nodes_Ok.
Qed.

(** The names [filenames] returns after an addition: those it returned
    before, followed by the basename of the firmware if it is new. *)
Lemma filenames_add_exp_resources (e e' : _Experiment) (res : resources) :
  add_exp_resources e res = Ok e' →
  filenames e'
  = match res_firmware res with
    | Some firmware =>
        if decide (basename firmware ∈ filenames e) then filenames e
        else filenames e ++ [basename firmware]
    | None => filenames e
    end.
Proof.
  intros (e2 & e3 & e4 & He2 & He3 & He4 & He')%add_exp_resources_Ok.
  apply _register_nodes_associations in He2 as (Hf2 & _). simpl in Hf2.
  apply add_other_associations_Ok in He' as (_ & _ & Hf' & _).
  assert (firmwareassociations e4 = firmwareassociations e3) as Hf4.
  { destruct (res_profile res); [|by injection He4 as <-].
    by apply extend_profileassociations_Ok in He4 as (m' & -> & _). }
  unfold filenames at 1. rewrite Hf', Hf4.
  destruct (res_firmware res) as [firmware|].
  - apply extend_firmwareassociations_Ok in He3 as (m & -> & Hm). simpl.
    apply extendvalues_Ok in Hm as ->. unfold keys. simpl.
    rewrite keys_extend_entries, Hf2. unfold filenames.
    by destruct (firmwareassociations e).
  - injection He3 as <-. unfold filenames. by rewrite Hf2.
Qed.

Lemma filenames_add_all_resources (e e' : _Experiment) (rs : list resources) :
  add_all_resources e rs = Ok e' →
  filenames e'
  = foldl (λ seen x, if decide (x ∈ seen) then seen else seen ++ [x])
          (filenames e) (firmware_names rs).
Proof.
  revert e. induction rs as [|res rs IH]; intros e; simpl.
  - by intros [= <-].
  - intros (e1 & He1 & He')%bind_Ok.
    rewrite (IH _ He'), (filenames_add_exp_resources _ _ _ He1).
    unfold firmware_names. simpl. by destruct (res_firmware res).
Qed.

(** C7 (as amended): for an experiment built from resources, [filenames]
    returns the basenames recorded as firmware names, each once however
    many resources use it, in the order they were first used (not
    sorted); names of profiles or other associations are no part of it. *)
Theorem C7_filenames (name : option string) (duration : Z)
    (start_time : option Z) (rs : list resources) (e : _Experiment) :
  add_all_resources (_Experiment_init name duration start_time) rs = Ok e →
  filenames e = first_seen (firmware_names rs) ∧
  NoDup (filenames e) ∧
  ∀ x, x ∈ filenames e ↔
       ∃ res firmware, res ∈ rs ∧ res_firmware res = Some firmware ∧
                       x = basename firmware.
Proof.
  intros He. apply filenames_add_all_resources in He.
  change (filenames (_Experiment_init name duration start_time)) with (@nil string) in He.
  fold (first_seen (firmware_names rs)) in He. rewrite He.
  split; [done|]. split; [apply NoDup_first_seen|].
  intros x. by rewrite elem_of_first_seen, elem_of_firmware_names.
Qed.

End FileNames.

Lemma C7_filenames_witness :
  filenames (demo_built [demo_group_1; demo_group_2])
  = first_seen (firmware_names [demo_group_1; demo_group_2]) ∧
  NoDup (filenames (demo_built [demo_group_1; demo_group_2])) ∧
  ∀ x, x ∈ filenames (demo_built [demo_group_1; demo_group_2]) ↔
       ∃ res firmware, res ∈ [demo_group_1; demo_group_2] ∧
                       res_firmware res = Some firmware ∧ x = basename firmware.
Proof.
  apply (@C7_filenames length_sort_key (Some "demo") 20 None
           [demo_group_1; demo_group_2]
           (demo_built [demo_group_1; demo_group_2])).
  by vm_compute.
Defined.

(** C7 (the claim as stated fails): the names come in the order the
    firmwares were first used, which need not be sorted. *)
Lemma C7_counterexample :
  filenames <$> add_all_resources (H:=length_sort_key) demo_experiment
                  [demo_group_1; demo_group_2]
  = Ok ["b.elf"; "a.elf"] ∧
  ¬ sorted_strings ["b.elf"; "a.elf"].
Proof.
  split; [by vm_compute|].
  intros Hsorted. apply Sorted_inv in Hsorted as [_ Hhd].
  apply HdRel_inv in Hhd. by vm_compute in Hhd.
Qed.

(** ** The canonical description and its round trip *)

Section RoundTrip.
Context `{NodeSortKey} `{!NodeSortKeyTotal}.

Lemma wf_entries_nil : wf_entries [].
Proof. split; [apply NoDup_nil_2 | constructor]. Qed.

Lemma fixed_extend_entries (name : string) (refs : list string) (es : list entry) :
  Forall (λ en : entry, node_set en.2 = en.2) es →
  Forall (λ en : entry, node_set en.2 = en.2) (extend_entries name refs es).
Proof.
  induction 1 as [|[k held] es Hk Hes IH]; simpl.
  - constructor; [apply node_set_idemp | constructor].
  - destruct (decide (k = name)) as [->|Hne].
    + constructor; [apply node_set_idemp | done].
    + by constructor.
Qed.

Lemma wf_extend_entries (name : string) (refs : list string) (es : list entry) :
  wf_entries es → wf_entries (extend_entries name refs es).
Proof.
  intros [Hkeys Hfixed]. split; [|by apply fixed_extend_entries].
  rewrite keys_extend_entries. destruct (decide _) as [|Hnew]; [done|].
  apply NoDup_app. split; [done|]. split; [|apply NoDup_singleton].
  by intros y Hy ->%list_elem_of_singleton.
Qed.

Lemma wf_extendvalues (m m' : AssociationsMap) (name : string) (refs : list string) :
  wf_map m → extendvalues m name refs = Ok m' → wf_map m'.
Proof. intros Hm ->%extendvalues_Ok. by apply wf_extend_entries. Qed.

Lemma wf_setattr_if_none (attr : option AssociationsMap) (t : string) :
  (∀ m, attr = Some m → wf_map m) →
  wf_map (setattr_if_none attr (AssociationsMap_new t)).
Proof. destruct attr as [m|]; simpl; [by auto | intros _; apply wf_entries_nil]. Qed.

Lemma wf_experiment_init name duration start_time :
  wf_experiment (_Experiment_init name duration start_time).
Proof. by split; [|split]. Qed.

Lemma wf__add_nodes_association (e e' : _Experiment) refs t n :
  wf_experiment e → _add_nodes_association e refs t n = Ok e' → wf_experiment e'.
Proof.
  intros (Hf & Hp & Ha) He'.
  apply _add_nodes_association_Ok in He' as (m & -> & Hm).
  split; [done|]. split; [done|]. simpl.
  intros d t' m' [= <-] Hlook.
  destruct (decide (t = t')) as [<-|Hne].
  - rewrite lookup_insert_eq in Hlook. injection Hlook as <-.
    eapply wf_extendvalues; [|done].
    destruct (associations e) as [d|] eqn:Hd; simpl.
    + destruct (d !! t) as [m0|] eqn:Hm0; simpl; [by eauto | apply wf_entries_nil].
    + rewrite lookup_empty. apply wf_entries_nil.
  - rewrite lookup_insert_ne in Hlook by done.
    destruct (associations e) as [d|] eqn:Hd; simpl in Hlook; [by eauto|].
    by rewrite lookup_empty in Hlook.
Qed.

Lemma wf_add_other_associations (e e' : _Experiment) refs assocs :
  wf_experiment e → add_other_associations e refs assocs = Ok e' →
  wf_experiment e'.
Proof.
  revert e. induction assocs as [|[t n] assocs IH]; intros e Hwf; simpl.
  - by intros [= <-].
  - intros (e1 & He1 & He')%bind_Ok. eapply IH; [|done].
    by eapply wf__add_nodes_association.
Qed.

(** Every experiment the builder produces has well-formed maps. *)
Lemma wf_add_exp_resources (e e' : _Experiment) (res : resources) :
  wf_experiment e → add_exp_resources e res = Ok e' → wf_experiment e'.
Proof.
  intros (Hf & Hp & Ha) (e2 & e3 & e4 & He2 & He3 & He4 & He')%add_exp_resources_Ok.
  apply _register_nodes_associations in He2 as (Hf2 & Hp2 & Ha2). simpl in *.
  eapply wf_add_other_associations; [|done].
  assert (wf_experiment e2) as Hwf2.
  { unfold wf_experiment. by rewrite Hf2, Hp2, Ha2. }
  assert (wf_experiment e3) as Hwf3.
  { destruct (res_firmware res); [|by injection He3 as <-].
    apply extend_firmwareassociations_Ok in He3 as (m & -> & Hm).
    destruct Hwf2 as (Hf' & Hp' & Ha').
    split; [|by split]. simpl. intros m' [= <-].
    eapply wf_extendvalues; [|done]. by apply wf_setattr_if_none. }
  destruct (res_profile res); [|by injection He4 as <-].
  apply extend_profileassociations_Ok in He4 as (m & -> & Hm).
  destruct Hwf3 as (Hf' & Hp' & Ha').
  split; [done|]. split; [|done]. simpl. intros m' [= <-].
  eapply wf_extendvalues; [|done]. by apply wf_setattr_if_none.
Qed.

Lemma wf_add_all_resources (e e' : _Experiment) (rs : list resources) :
  wf_experiment e → add_all_resources e rs = Ok e' → wf_experiment e'.
Proof.
  revert e. induction rs as [|res rs IH]; intros e Hwf; simpl.
  - by intros [= <-].
  - intros (e1 & He1 & He')%bind_Ok. eapply IH; [|done].
    by eapply wf_add_exp_resources.
Qed.

(** Loading the records of a well-formed map gives its entries back. *)
Lemma load_entries_from (acc es : list entry) :
  NoDup (fst <$> (acc ++ es)) →
  Forall (λ en : entry, node_set en.2 = en.2) es →
  foldl (λ es '(name, refs), extend_entries name refs es) acc es = acc ++ es.
Proof.
  revert acc. induction es as [|[n r] es IH]; intros acc Hkeys Hfixed; simpl.
  - by rewrite app_nil_r.
  - apply Forall_cons in Hfixed as [Hr Hfixed]. simpl in Hr.
    rewrite extend_entries_fresh, Hr.
    + rewrite IH; [by rewrite <-app_assoc | by rewrite <-app_assoc | done].
    + rewrite fmap_app in Hkeys. apply NoDup_app in Hkeys as (_ & Hdisj & _).
      intros Hin. apply (Hdisj n Hin). by left.
Qed.

Lemma from_list_AssociationsMap_list (m : AssociationsMap) (t : string) :
  wf_map m →
  AssociationsMap_list <$> from_list (Some (AssociationsMap_list m)) t
  = Some (AssociationsMap_list m).
Proof.
  intros [Hkeys Hfixed]. simpl. unfold AssociationsMap_list at 1. simpl.
  by rewrite load_entries_from.
Qed.

Lemma node_description_loaded (ns : list node) :
  node_description <$> (loaded_node <$> (node_description <$> ns))
  = node_description <$> ns.
Proof.
  rewrite <-!list_fmap_compose. apply list_fmap_ext. by intros _ [url|a|d] _.
Qed.

(** The round trip on a well-formed experiment. *)
Lemma serialize_from_dict (e : _Experiment) :
  wf_experiment e →
  ∃ e', from_dict (serialize e) = Ok e' ∧ serialize e' = serialize e.
Proof.
  intros (Hf & Hp & Ha). eexists. split; [reflexivity|].
  unfold serialize, _load_assocs. simpl.
  rewrite node_description_loaded. f_equal.
  - f_equal. destruct (firmwareassociations e) as [m|]; simpl; [|done].
    by apply (from_list_AssociationsMap_list m "firmware"), Hf.
  - f_equal. destruct (profileassociations e) as [m|]; simpl; [|done].
    by apply (from_list_AssociationsMap_list m "profile"), Hp.
  - f_equal. destruct (associations e) as [d|]; simpl; [|done].
    f_equal. apply map_eq. intros t.
    rewrite lookup_fmap, map_lookup_imap, lookup_fmap.
    destruct (d !! t) as [m|] eqn:Hm; simpl; [|done].
    apply (from_list_AssociationsMap_list m t). by eapply Ha.
Qed.

(** C1: for an experiment built by adding a sequence of resources (all
    of one addressing mode, or the building fails), serialising it,
    loading the description with [from_dict] and serialising the result
    gives the first description again. *)
Theorem C1_round_trip (name : option string) (duration : Z)
    (start_time : option Z) (rs : list resources) (e : _Experiment) :
  add_all_resources (_Experiment_init name duration start_time) rs = Ok e →
  ∃ e', from_dict (serialize e) = Ok e' ∧ serialize e' = serialize e.
Proof.
  intros He. apply serialize_from_dict.
  eapply wf_add_all_resources; [|done]. apply wf_experiment_init.
Qed.

End RoundTrip.

Lemma C1_round_trip_witness :
  (∃ e', from_dict (H:=length_sort_key)
           (serialize (demo_built [demo_group_1; demo_group_2])) = Ok e' ∧
         serialize e' = serialize (demo_built [demo_group_1; demo_group_2])) ∧
  (∃ e', from_dict (H:=length_sort_key)
           (serialize (demo_built [demo_alias_group])) = Ok e' ∧
         serialize e' = serialize (demo_built [demo_alias_group])).
Proof.
  split.
  - apply (@C1_round_trip length_sort_key length_sort_key_total (Some "demo") 20
             None [demo_group_1; demo_group_2]). by vm_compute.
  - apply (@C1_round_trip length_sort_key length_sort_key_total (Some "demo") 20
             None [demo_alias_group]). by vm_compute.
Defined.

(** ** Additions that cannot conflict *)

Section Disjoint.
Context `{NodeSortKey}.

Lemma node_ref_NodeAddr (l : list string) : node_ref <$> (NodeAddr <$> l) = l.
Proof. induction l as [|x l IH]; csimpl; [done | by rewrite IH]. Qed.

Lemma elem_of_held_elsewhere (x name : string) (es : list entry) :
  x ∈ held_elsewhere name es → ∃ k held, (k, held) ∈ es ∧ x ∈ held.
Proof.
  unfold held_elsewhere. induction es as [|[k held] es IH]; [by intros ?%elem_of_nil|].
  rewrite filter_cons. destruct (decide _) as [Hne|Heq]; csimpl.
  - intros [Hx|Hx]%elem_of_app.
    + exists k, held. split; [by left | done].
    + destruct (IH Hx) as (k' & held' & Hin & Hx'). exists k', held'.
      split; [by right | done].
  - intros Hx. destruct (IH Hx) as (k' & held' & Hin & Hx'). exists k', held'.
    split; [by right | done].
Qed.

(** No conflict is possible when the references are new to the map. *)
Lemma extendvalues_new_refs (m : AssociationsMap) (name : string)
    (refs known : list string) :
  entries_within (entries m) known → (∀ x, x ∈ refs → x ∉ known) →
  ∃ m', extendvalues m name refs = Ok m'.
Proof.
  intros Hwithin Hnew. unfold extendvalues.
  destruct (filter _ refs) as [|x conflicts] eqn:Hfilter; [by eauto|].
  assert (x ∈ filter (λ r, r ∈ held_elsewhere name (entries m)) refs) as Hx
    by (rewrite Hfilter; by left).
  apply list_elem_of_filter in Hx as [Hheld Hx].
  apply elem_of_held_elsewhere in Hheld as (k & held & Hin & Hxh).
  destruct (Hnew x Hx). by eapply Hwithin.
Qed.

Lemma entries_within_nil (known : list string) : entries_within [] known.
Proof. by intros k held x ?%elem_of_nil. Qed.

Lemma entries_within_mono (es : list entry) (known known' : list string) :
  (∀ x, x ∈ known → x ∈ known') → entries_within es known →
  entries_within es known'.
Proof. intros Hsub Hes k held x Hin Hx. by eapply Hsub, Hes. Qed.

Lemma entries_within_extend (es : list entry) (name : string)
    (refs known : list string) :
  entries_within es known → (∀ x, x ∈ refs → x ∈ known) →
  entries_within (extend_entries name refs es) known.
Proof.
  intros Hes Hrefs. induction es as [|[k held] es IH]; simpl.
  - intros k' held' x [[= -> ->]|?%elem_of_nil]%elem_of_cons Hx; [|done].
    rewrite elem_of_node_set in Hx. by apply Hrefs.
  - destruct (decide (k = name)) as [->|Hne].
    + intros k' held' x [[= -> ->]|Hin]%elem_of_cons Hx.
      * rewrite elem_of_node_set, elem_of_app in Hx.
        destruct Hx as [Hx|Hx]; [|by apply Hrefs].
        eapply Hes; [by left | done].
      * eapply Hes; [by right | done].
    + intros k' held' x [[= -> ->]|Hin]%elem_of_cons Hx.
      * eapply Hes; [by left | done].
      * eapply IH; [|done..]. intros k'' held'' y Hin' Hy.
        eapply Hes; [by right | done].
Qed.

Lemma entries_within_extendvalues (m m' : AssociationsMap) (name : string)
    (refs known : list string) :
  entries_within (entries m) known → (∀ x, x ∈ refs → x ∈ known) →
  extendvalues m name refs = Ok m' → entries_within (entries m') known.
Proof. intros Hm Hrefs ->%extendvalues_Ok. by apply entries_within_extend. Qed.

Lemma entries_within_setattr_if_none (attr : option AssociationsMap) t known :
  (∀ m, attr = Some m → entries_within (entries m) known) →
  entries_within (entries (setattr_if_none attr (AssociationsMap_new t))) known.
Proof.
  destruct attr as [m|]; simpl; [by auto | intros _; apply entries_within_nil].
Qed.

Lemma entries_within_lookup (attr : option (gmap string AssociationsMap)) t known :
  (∀ d t m, attr = Some d → d !! t = Some m → entries_within (entries m) known) →
  entries_within
    (entries (default (AssociationsMap_new t) (setattr_if_none attr ∅ !! t))) known.
Proof.
  intros Ha. destruct attr as [d|]; simpl.
  - destruct (d !! t) as [m|] eqn:Hm; simpl; [by eauto | apply entries_within_nil].
  - rewrite lookup_empty. apply entries_within_nil.
Qed.

(** Registering nodes makes the subject of the associations known. *)
Lemma _register_nodes_known (e e2 : _Experiment) (res : resources) :
  _register_nodes e (res_nodes res) = Ok e2 →
  (∀ x, x ∈ node_ref <$> nodes e → x ∈ node_ref <$> nodes e2) ∧
  (∀ x, x ∈ association_subject res → x ∈ node_ref <$> nodes e2).
Proof.
  unfold _register_nodes, association_subject.
  destruct (type e) as [t|]; [|done].
  destruct (decide (t = "physical")) as [->|?].
  - destruct (res_nodes res) as [l|a]; [|done].
    intros (reg & Hn & _ & _ & ->)%set_physical_nodes_Ok. simpl.
    rewrite Hn, !node_ref_NodeAddr. unfold list_of_set.
    split; intros x Hx;
      rewrite elem_of_sorted, elem_of_elements, elem_of_list_to_set, elem_of_app;
      auto.
  - destruct (decide (t = "alias")) as [->|?]; [|done].
    destruct (res_nodes res) as [l|a]; [done|].
    intros [_ ->]%set_alias_nodes_Ok. simpl. rewrite fmap_app. simpl.
    split; intros x Hx; apply elem_of_app; [by left | by right].
Qed.

Lemma refs_registered__add_nodes_association (e e' : _Experiment) refs t n :
  refs_registered e → (∀ x, x ∈ refs → x ∈ node_ref <$> nodes e) →
  _add_nodes_association e refs t n = Ok e' →
  refs_registered e' ∧ nodes e' = nodes e.
Proof.
  intros (Hf & Hp & Ha) Hrefs He'.
  apply _add_nodes_association_Ok in He' as (m & -> & Hm).
  split; [|done]. split; [done|]. split; [done|]. simpl.
  intros d t' m' [= <-] Hlook.
  destruct (decide (t = t')) as [<-|Hne].
  - rewrite lookup_insert_eq in Hlook. injection Hlook as <-.
    eapply entries_within_extendvalues; [|done..].
    by apply entries_within_lookup.
  - rewrite lookup_insert_ne in Hlook by done.
    destruct (associations e) as [d|] eqn:Hd; simpl in Hlook; [by eauto|].
    by rewrite lookup_empty in Hlook.
Qed.

Lemma refs_registered_add_other_associations (e e' : _Experiment) refs assocs :
  refs_registered e → (∀ x, x ∈ refs → x ∈ node_ref <$> nodes e) →
  add_other_associations e refs assocs = Ok e' → refs_registered e'.
Proof.
  revert e. induction assocs as [|[t n] assocs IH]; intros e Hreg Hrefs; simpl.
  - by intros [= <-].
  - intros (e1 & He1 & He')%bind_Ok.
    eapply refs_registered__add_nodes_association in He1 as [Hreg1 Hn1]; [|done..].
    eapply IH; [done| |done]. by rewrite Hn1.
Qed.

(** The associations of an experiment the builder produces only mention
    nodes of the experiment. *)
Lemma refs_registered_add_exp_resources (e e' : _Experiment) (res : resources) :
  refs_registered e → add_exp_resources e res = Ok e' → refs_registered e'.
Proof.
  intros (Hf & Hp & Ha) (e2 & e3 & e4 & He2 & He3 & He4 & He')%add_exp_resources_Ok.
  pose proof (_register_nodes_associations _ _ _ He2) as (Hf2 & Hp2 & Ha2).
  apply _register_nodes_known in He2 as [Hold Hsubj]. simpl in *.
  assert (refs_registered e2) as Hreg2.
  { unfold refs_registered. cbv zeta. rewrite Hf2, Hp2, Ha2. split; [|split].
    - intros m Hm. eapply entries_within_mono; [exact Hold | by apply Hf].
    - intros m Hm. eapply entries_within_mono; [exact Hold | by apply Hp].
    - intros d t m Hd Hm. eapply entries_within_mono; [exact Hold | by eapply Ha]. }
  assert (refs_registered e3 ∧ nodes e3 = nodes e2) as [Hreg3 Hn3].
  { destruct (res_firmware res); [|by injection He3 as <-].
    apply extend_firmwareassociations_Ok in He3 as (m & -> & Hm).
    destruct Hreg2 as (Hf' & Hp' & Ha').
    split; [|done]. split; [|by split]. simpl. intros m' [= <-].
    eapply entries_within_extendvalues; [|done..].
    by apply entries_within_setattr_if_none. }
  assert (refs_registered e4 ∧ nodes e4 = nodes e3) as [Hreg4 Hn4].
  { destruct (res_profile res); [|by injection He4 as <-].
    apply extend_profileassociations_Ok in He4 as (m & -> & Hm).
    destruct Hreg3 as (Hf' & Hp' & Ha').
    split; [|done]. split; [done|]. split; [|done]. simpl. intros m' [= <-].
    eapply entries_within_extendvalues; [| |done].
    - by apply entries_within_setattr_if_none.
    - by rewrite Hn3. }
  eapply refs_registered_add_other_associations; [done| |done].
  by rewrite Hn4, Hn3.
Qed.

Lemma refs_registered_add_all_resources (e e' : _Experiment) (rs : list resources) :
  refs_registered e → add_all_resources e rs = Ok e' → refs_registered e'.
Proof.
  revert e. induction rs as [|res rs IH]; intros e Hreg; simpl.
  - by intros [= <-].
  - intros (e1 & He1 & He')%bind_Ok. eapply IH; [|done].
    by eapply refs_registered_add_exp_resources.
Qed.

Lemma refs_registered_init name duration start_time :
  refs_registered (_Experiment_init name duration start_time).
Proof. by split; [|split]. Qed.

(** The other associations of resources whose references are all new
    are added without conflict (the keys of a dict are distinct). *)
Lemma add_other_associations_new_refs (e : _Experiment) (refs known : list string)
    (assocs : list (string * string)) :
  NoDup (fst <$> assocs) →
  (∀ d t m, associations e = Some d → d !! t = Some m → t ∈ fst <$> assocs →
            entries_within (entries m) known) →
  (∀ x, x ∈ refs → x ∉ known) →
  ∃ e', add_other_associations e refs assocs = Ok e'.
Proof.
  revert e. induction assocs as [|[t n] assocs IH]; intros e Hkeys Ha Hnew; simpl.
  - by eauto.
  - apply NoDup_cons in Hkeys as [Ht Hkeys]. unfold _add_nodes_association.
    destruct (extendvalues_new_refs
                (default (AssociationsMap_new t)
                         (setattr_if_none (associations e) ∅ !! t))
                (nodes_association_name t n) refs known) as [m' Hm']; [|done|].
    { destruct (associations e) as [d|] eqn:Hd; simpl.
      - destruct (d !! t) as [m|] eqn:Hm; simpl; [|apply entries_within_nil].
        eapply Ha; [done..|]. by left.
      - rewrite lookup_empty. apply entries_within_nil. }
    rewrite Hm'. simpl. apply IH; [done| |done]. simpl.
    intros d t' m [= <-] Hlook Ht'.
    assert (t ≠ t') as Hne by (by intros ->).
    rewrite lookup_insert_ne in Hlook by done.
    destruct (associations e) as [d|] eqn:Hd; simpl in Hlook.
    + eapply Ha; [done..|]. by right.
    + by rewrite lookup_empty in Hlook.
Qed.

(** Physical resources whose addresses are all new are added without
    error to an experiment whose associations only mention its nodes. *)
Lemma add_exp_resources_new_nodes (e : _Experiment) (registered nodes_list : list string)
    (firmware profile : option string) (assocs : list (string * string)) :
  type e = None ∨ type e = Some "physical" →
  nodes e = NodeAddr <$> registered →
  refs_registered e →
  (∀ x, x ∈ registered → x ∉ nodes_list) →
  NoDup (fst <$> assocs) →
  ∃ e', add_exp_resources e
          (mkResources "physical" (NodesList nodes_list) firmware profile assocs)
        = Ok e'.
Proof.
  intros Ht Hn (Hf & Hp & Ha) Hdisj Hkeys.
  rewrite Hn, node_ref_NodeAddr in Hf, Hp, Ha.
  assert (∀ x, x ∈ nodes_list → x ∉ registered) as Hnew
    by (intros x Hx Hr; by apply (Hdisj x)).
  unfold add_exp_resources. simpl.
  assert (_set_type e "physical" = Ok (set_type e (Some "physical"))) as ->.
  { destruct Ht; [by apply _set_type_None | by apply _set_type_same]. }
  simpl. unfold _register_nodes. simpl.
  rewrite (set_physical_nodes_spec _ registered) by (by auto). cbv zeta.
  apply intersect_nil in Hdisj. rewrite decide_False by (by intros ?). simpl.
  unfold _nodes_to_assoc. simpl.
  assert (∃ e3, match firmware with
                | Some fw =>
                    extend_firmwareassociations
                      (set_nodes (set_type (set_type e (Some "physical"))
                                           (Some "physical"))
                         (NodeAddr <$> sorted (list_of_set
                            (list_to_set (registered ++ nodes_list)))))
                      (nodes_association_name "firmware" fw) nodes_list
                | None => Ok _
                end = Ok e3 ∧
                profileassociations e3 = profileassociations e ∧
                associations e3 = associations e) as (e3 & -> & Hp3 & Ha3).
  { destruct firmware as [fw|]; [|by eauto].
    unfold extend_firmwareassociations. simpl.
    destruct (extendvalues_new_refs
                (setattr_if_none (firmwareassociations e)
                                 (AssociationsMap_new "firmware"))
                (nodes_association_name "firmware" fw) nodes_list registered)
      as [m Hm]; [by apply entries_within_setattr_if_none | done |].
    rewrite Hm. simpl. by eauto. }
  simpl.
  assert (∃ e4, match profile with
                | Some pr =>
                    extend_profileassociations e3
                      (nodes_association_name "profile" pr) nodes_list
                | None => Ok e3
                end = Ok e4 ∧
                associations e4 = associations e) as (e4 & -> & Ha4).
  { destruct profile as [pr|]; [|by eauto].
    unfold extend_profileassociations. rewrite Hp3.
    destruct (extendvalues_new_refs
                (setattr_if_none (profileassociations e)
                                 (AssociationsMap_new "profile"))
                (nodes_association_name "profile" pr) nodes_list registered)
      as [m Hm]; [by apply entries_within_setattr_if_none | done |].
    rewrite Hm. simpl. by eauto. }
  simpl. apply (add_other_associations_new_refs _ _ registered); [done| |done].
  rewrite Ha4. intros d t m Hd Hm _. by eapply Ha.
Qed.

(** C3: in physical mode, resources whose nodes meet the addresses
    already registered are refused with the duplicate-node error, which
    reports the common addresses, each once and no other; when there is
    no common address the registration succeeds, and so does the whole
    addition to an experiment the builder produced. *)
Theorem C3_duplicate_nodes (e : _Experiment) (registered nodes_list : list string) :
  type e = Some "physical" → nodes e = NodeAddr <$> registered →
  ((∃ x, x ∈ registered ∧ x ∈ nodes_list) →
     ∃ reported,
       set_physical_nodes e nodes_list = Raise (ValueError_multiple reported) ∧
       NoDup reported ∧
       (∀ x, x ∈ reported ↔ x ∈ registered ∧ x ∈ nodes_list) ∧
       ∀ firmware profile assocs,
         add_exp_resources e
           (mkResources "physical" (NodesList nodes_list) firmware profile assocs)
         = Raise (ValueError_multiple reported)) ∧
  ((∀ x, x ∈ registered → x ∉ nodes_list) →
     (∃ e', set_physical_nodes e nodes_list = Ok e') ∧
     ∀ name duration start_time rs firmware profile assocs,
       add_all_resources (_Experiment_init name duration start_time) rs = Ok e →
       NoDup (fst <$> assocs) →
       ∃ e', add_exp_resources e
               (mkResources "physical" (NodesList nodes_list) firmware profile
                            assocs)
             = Ok e').
Proof.
  intros Ht Hn.
  pose proof (set_physical_nodes_spec e registered nodes_list (or_intror Ht) Hn)
    as Hspec.
  cbv zeta in Hspec. split.
  - intros (x & Hx1 & Hx2).
    exists (list_of_set (list_to_set registered ∩ list_to_set nodes_list)).
    assert (list_of_set (list_to_set registered ∩ list_to_set nodes_list) ≠ [])
      as Hne.
    { intros Hnil. by apply (proj1 (intersect_nil _ _) Hnil x). }
    rewrite decide_True in Hspec by done.
    split; [done|]. split; [apply NoDup_elements|].
    split; [intros y; apply elem_of_intersect|].
    intros firmware profile assocs. unfold add_exp_resources. simpl.
    rewrite (_set_type_same e "physical") by done. simpl.
    unfold _register_nodes. simpl.
    assert (set_physical_nodes (set_type e (Some "physical")) nodes_list
            = Raise (ValueError_multiple
                       (list_of_set (list_to_set registered ∩ list_to_set nodes_list))))
      as ->; [|done].
    rewrite (set_physical_nodes_spec _ registered) by (by auto).
    cbv zeta. by rewrite decide_True.
  - intros Hdisj. split.
    + apply intersect_nil in Hdisj.
      rewrite decide_False in Hspec by (by intros ?). eauto.
    + intros name duration start_time rs firmware profile assocs Hbuilt Hkeys.
      apply (add_exp_resources_new_nodes e registered); [by right|done| |done..].
      eapply refs_registered_add_all_resources; [|done].
      apply refs_registered_init.
Qed.

End Disjoint.

Lemma C3_duplicate_nodes_witness :
  (∃ reported,
     set_physical_nodes (H:=length_sort_key) (demo_built [demo_group_1])
       ["m3-7.lille.iot-lab.info"; "m3-1.grenoble.iot-lab.info"]
     = Raise (ValueError_multiple reported) ∧
     NoDup reported ∧
     (∀ x, x ∈ reported ↔
           x ∈ ["m3-1.grenoble.iot-lab.info"; "m3-2.grenoble.iot-lab.info"] ∧
           x ∈ ["m3-7.lille.iot-lab.info"; "m3-1.grenoble.iot-lab.info"]) ∧
     ∀ firmware profile assocs,
       add_exp_resources (H:=length_sort_key) (demo_built [demo_group_1])
         (mkResources "physical"
            (NodesList ["m3-7.lille.iot-lab.info"; "m3-1.grenoble.iot-lab.info"])
            firmware profile assocs)
       = Raise (ValueError_multiple reported)) ∧
  (∃ e', set_physical_nodes (H:=length_sort_key) (demo_built [demo_group_1])
           ["m3-30.lille.iot-lab.info"] = Ok e') ∧
  (∃ e', add_exp_resources (H:=length_sort_key) (demo_built [demo_group_1])
           demo_group_2 = Ok e').
Proof.
  pose proof (@C3_duplicate_nodes length_sort_key (demo_built [demo_group_1])
                ["m3-1.grenoble.iot-lab.info"; "m3-2.grenoble.iot-lab.info"])
    as HC3.
  assert (nodes (demo_built [demo_group_1])
          = NodeAddr <$> ["m3-1.grenoble.iot-lab.info";
                          "m3-2.grenoble.iot-lab.info"]) as Hnodes
    by by vm_compute.
  assert (∀ x, x ∈ ["m3-1.grenoble.iot-lab.info"; "m3-2.grenoble.iot-lab.info"] →
               x ∉ ["m3-30.lille.iot-lab.info"]) as Hnew.
  { intros x Hx Hx'. apply list_elem_of_singleton in Hx' as ->.
    revert Hx. by_evaluation. }
  destruct (HC3 ["m3-7.lille.iot-lab.info"; "m3-1.grenoble.iot-lab.info"]
                eq_refl Hnodes) as [Hdup _].
  destruct (HC3 ["m3-30.lille.iot-lab.info"] eq_refl Hnodes) as [_ Hadd].
  destruct (Hadd Hnew) as [Hset Hall].
  split; [|split].
  - apply Hdup. exists "m3-1.grenoble.iot-lab.info". split; by_evaluation.
  - exact Hset.
  - refine (Hall (Some "demo") 20 None [demo_group_1] (Some "a.elf") None [] _ _);
      [by vm_compute | apply NoDup_nil_2].
Defined.

(** ** Files and their paths ([_files_with_filespath]) *)

Lemma string_key_total : @NodeSortKeyTotal string_key.
Proof. intros a b. apply String.leb_total. Qed.

Lemma sorted_strs_sorted (l : list string) : sorted_strings (sorted_strs l).
Proof. apply (@Sorted_sorted string_key string_key_total). Qed.

Lemma sorted_strs_perm (l : list string) : sorted_strs l ≡ₚ l.
Proof. apply (@sorted_perm string_key). Qed.

Lemma path_for_snoc (filespath : list string) (p f : string) :
  path_for (filespath ++ [p]) f
  = if decide (basename p = f) then Some p else path_for filespath f.
Proof.
  unfold path_for. rewrite filter_app, filter_cons, filter_nil.
  destruct (decide (basename p = f)); [apply last_snoc | by rewrite app_nil_r].
Qed.

(** The dict of paths holds, for a basename, the last path given for it. *)
Lemma lookup_filespathdict_of (filespath : list string) (f : string) :
  filespathdict_of filespath !! f = path_for filespath f.
Proof.
  induction filespath as [|p filespath IH] using rev_ind; [apply lookup_empty|].
  unfold filespathdict_of. rewrite foldl_app, path_for_snoc. simpl.
  fold (filespathdict_of filespath).
  destruct (decide (basename p = f)) as [<-|Hne]; [apply lookup_insert_eq|].
  by rewrite lookup_insert_ne.
Qed.

Lemma path_for_Some (filespath : list string) (f p : string) :
  path_for filespath f = Some p → p ∈ filespath ∧ basename p = f.
Proof.
  unfold path_for. intros Hlast%last_Some_elem_of.
  apply list_elem_of_filter in Hlast. tauto.
Qed.

Lemma path_for_is_Some (filespath : list string) (f : string) :
  is_Some (path_for filespath f) ↔ ∃ p, p ∈ filespath ∧ basename p = f.
Proof.
  split.
  - intros [p Hp]. exists p. by apply path_for_Some.
  - intros (p & Hin & Hbase). unfold path_for.
    destruct (last _) as [q|] eqn:Hlast; [by eexists|].
    apply last_None in Hlast.
    by destruct (filter_nil_not_elem_of _ _ p Hlast Hbase).
Qed.

Lemma pop_all_spec (fs : list string) (d : gmap string string) :
  NoDup fs →
  (pop_all fs d).1 = (λ f, default f (d !! f)) <$> fs ∧
  ∀ k, (pop_all fs d).2 !! k = if decide (k ∈ fs) then None else d !! k.
Proof.
  intros Hfs. revert d. induction Hfs as [|f fs Hf Hfs IH]; intros d;
    cbn [pop_all].
  - split; [done|]. intros k. rewrite decide_False; [done | by intros ?%elem_of_nil].
  - assert (dict_pop f f d = (default f (d !! f), delete f d)) as ->.
    { unfold dict_pop. destruct (d !! f) eqn:Hd; simpl; [done|].
      by rewrite delete_id. }
    destruct (IH (delete f d)) as [Hvs Hrest].
    destruct (pop_all fs (delete f d)) as [vs d'] eqn:Hpop.
    cbn [fst snd] in *. split.
    + rewrite fmap_cons. f_equal. rewrite Hvs. apply list_fmap_ext. intros i g Hg.
      rewrite lookup_delete_ne; [done|]. intros ->.
      apply Hf. by eapply list_elem_of_lookup_2.
    + intros k. rewrite Hrest, lookup_delete.
      destruct (decide (k ∈ fs)) as [Hk|Hk].
      * rewrite decide_True; [done | by right].
      * destruct (decide (f = k)) as [->|Hne].
        -- rewrite decide_True; [done | by left].
        -- rewrite decide_False; [done|].
           intros [?|?]%elem_of_cons; congruence.
Qed.

Lemma elem_of_list_of_set (x : string) (l : list string) :
  x ∈ list_of_set (list_to_set l) ↔ x ∈ l.
Proof. unfold list_of_set. by rewrite elem_of_elements, elem_of_list_to_set. Qed.

(** The two ways [_files_with_filespath] can end. *)
Lemma _files_with_filespath_spec (files filespath : list string) :
  let fs := list_of_set (list_to_set files) in
  ((∀ p, p ∈ filespath → basename p ∈ files) ∧
   _files_with_filespath files filespath
   = Updated (sorted_strs ((λ f, default f (path_for filespath f)) <$> fs))) ∨
  ((∃ p, p ∈ filespath ∧ basename p ∉ files) ∧
   ∃ remaining,
     _files_with_filespath files filespath
     = ValueError_filespath remaining (sorted_strs fs) ∧
     ∀ p, p ∈ remaining ↔
          (basename p ∉ files) ∧ path_for filespath (basename p) = Some p).
Proof.
  intros fs. unfold _files_with_filespath. fold fs.
  destruct (pop_all_spec fs (filespathdict_of filespath)) as [Hvs Hrest];
    [apply NoDup_elements|].
  destruct (pop_all fs (filespathdict_of filespath)) as [vs d] eqn:Hpop.
  simpl in Hvs, Hrest.
  assert (∀ k, d !! k = if decide (k ∈ files) then None else path_for filespath k)
    as Hd.
  { intros k. rewrite Hrest, lookup_filespathdict_of.
    destruct (decide (k ∈ fs)) as [Hk|Hk], (decide (k ∈ files)) as [Hk'|Hk'];
      try done; exfalso; unfold fs in Hk; rewrite elem_of_list_of_set in Hk; done. }
  destruct (decide (d ≠ ∅)) as [Hne|Hempty].
  - right. assert (∃ k p, d !! k = Some p) as (k & p & Hk).
    { destruct (map_to_list d) as [|[k p] l] eqn:Hl.
      - by apply map_to_list_empty_iff in Hl.
      - exists k, p. apply elem_of_map_to_list. rewrite Hl. by left. }
    split.
    + rewrite Hd in Hk. destruct (decide (k ∈ files)); [done|].
      apply path_for_Some in Hk as [Hin <-]. by exists p.
    + eexists. split; [reflexivity|]. intros q.
      rewrite list_elem_of_fmap. split.
      * intros ([k' q'] & -> & Hin). simpl.
        apply elem_of_map_to_list in Hin. rewrite Hd in Hin.
        destruct (decide (k' ∈ files)); [done|].
        pose proof (path_for_Some _ _ _ Hin) as [_ <-]. done.
      * intros [Hq Hpath]. exists (basename q, q). split; [done|].
        apply elem_of_map_to_list. rewrite Hd. by rewrite decide_False.
  - left. apply dec_stable in Hempty. subst d. split.
    + intros p Hp. destruct (decide (basename p ∈ files)) as [|Hnot]; [done|].
      specialize (Hd (basename p)). rewrite lookup_empty, decide_False in Hd by done.
      assert (is_Some (path_for filespath (basename p))) as [q Hq]
        by (apply path_for_is_Some; by exists p).
      congruence.
    + f_equal. f_equal. rewrite Hvs. apply list_fmap_ext. intros i f _.
      by rewrite lookup_filespathdict_of.
Qed.

(** X1: [_files_with_filespath] succeeds exactly when the basename of
    every given path is one of the files; otherwise it raises the
    [ValueError], which reports the paths kept for the basenames that are
    no file, and the distinct files in sorted order. *)
Theorem files_with_filespath_unknown_path (files filespath : list string) :
  ((∃ l, _files_with_filespath files filespath = Updated l) ↔
   ∀ p, p ∈ filespath → basename p ∈ files) ∧
  ∀ remaining fs,
    _files_with_filespath files filespath = ValueError_filespath remaining fs →
    remaining ≠ [] ∧
    (∀ p, p ∈ remaining ↔
          (basename p ∉ files) ∧ path_for filespath (basename p) = Some p) ∧
    sorted_strings fs ∧ NoDup fs ∧ ∀ f, f ∈ fs ↔ f ∈ files.
Proof.
  destruct (_files_with_filespath_spec files filespath)
    as [[Hall Hok]|[(p & Hp & Hnot) (rem & Herr & Hrem)]].
  - split; [split; [by intros _ | by eauto]|]. intros remaining fs. by rewrite Hok.
  - split.
    + split; [intros [l Hl]; congruence|]. intros Hall. destruct Hnot. by apply Hall.
    + intros remaining fs. rewrite Herr. intros [= <- <-].
      split; [|split; [done|split; [apply sorted_strs_sorted|split]]].
      * assert (is_Some (path_for filespath (basename p))) as [q Hq]
          by (apply path_for_is_Some; by exists p).
        pose proof (path_for_Some _ _ _ Hq) as [_ Hbase].
        assert (q ∈ rem) as Hin by (apply Hrem; by rewrite Hbase).
        intros ->. by apply elem_of_nil in Hin.
      * rewrite sorted_strs_perm. apply NoDup_elements.
      * intros f. by rewrite sorted_strs_perm, elem_of_list_of_set.
Qed.

(** X2: on success the list returned is sorted, has one entry per
    distinct file, and holds for every file the last path given with its
    basename, or the file itself when no path was given for it. *)
Theorem files_with_filespath_result (files filespath l : list string) :
  _files_with_filespath files filespath = Updated l →
  sorted_strings l ∧
  length l = size (list_to_set files : gset string) ∧
  ∀ x, x ∈ l ↔ ∃ f, f ∈ files ∧ x = default f (path_for filespath f).
Proof.
  destruct (_files_with_filespath_spec files filespath)
    as [[Hall Hok]|[_ (rem & Herr & _)]]; [|congruence].
  rewrite Hok. intros [= <-].
  split; [apply sorted_strs_sorted|]. split.
  - by rewrite (Permutation_length (sorted_strs_perm _)), length_fmap.
  - intros x. rewrite sorted_strs_perm, list_elem_of_fmap.
    split.
    + intros (f & -> & Hf). exists f. split; [|done].
      by rewrite elem_of_list_of_set in Hf.
    + intros (f & Hf & ->). exists f. split; [done|].
      by rewrite elem_of_list_of_set.
Qed.

(** X3: for files that are plain names (no slash, as [filenames] returns
    them), the basenames of the list returned are the distinct files, each
    once: no file is lost, doubled or given the path of another. *)
Theorem files_with_filespath_basenames (files filespath l : list string) :
  (∀ f, f ∈ files → rfind "/" f = -1) →
  _files_with_filespath files filespath = Updated l →
  basename <$> l ≡ₚ list_of_set (list_to_set files) ∧ NoDup l.
Proof.
  intros Hplain.
  destruct (_files_with_filespath_spec files filespath)
    as [[Hall Hok]|[_ (rem & Herr & _)]]; [|congruence].
  rewrite Hok. intros [= <-].
  assert (basename <$> sorted_strs
            ((λ f, default f (path_for filespath f))
               <$> list_of_set (list_to_set files))
          ≡ₚ list_of_set (list_to_set files)) as Hperm.
  { rewrite sorted_strs_perm, <-list_fmap_compose.
    assert ((basename ∘ (λ f, default f (path_for filespath f)))
              <$> list_of_set (list_to_set files)
            = id <$> list_of_set (list_to_set files)) as ->;
      [|by rewrite list_fmap_id].
    apply list_fmap_ext. intros i f Hf. simpl.
    apply list_elem_of_lookup_2 in Hf. rewrite elem_of_list_of_set in Hf.
    destruct (path_for filespath f) as [p|] eqn:Hp; simpl.
    - by apply path_for_Some in Hp as [_ ?].
    - by apply basename_no_slash, Hplain. }
  split; [done|]. apply (NoDup_fmap_1 basename). rewrite Hperm.
  apply NoDup_elements.
Qed.

Lemma files_with_filespath_basenames_witness :
  basename <$> ["b"; "dir/a"; "dir/c"] ≡ₚ list_of_set (list_to_set ["a"; "b"; "c"; "a"])
  ∧ NoDup ["b"; "dir/a"; "dir/c"].
Proof.
  apply (files_with_filespath_basenames ["a"; "b"; "c"; "a"] ["dir/c"; "dir/a"]).
  - intros f Hf. repeat (apply elem_of_cons in Hf as [->|Hf]; [reflexivity|]).
    by apply elem_of_nil in Hf.
  - by vm_compute.
Defined.

Lemma files_with_filespath_result_witness :
  sorted_strings ["b"; "dir/a"; "dir/c"] ∧
  length ["b"; "dir/a"; "dir/c"] = size (list_to_set ["a"; "b"; "c"; "a"] : gset string) ∧
  ∀ x, x ∈ ["b"; "dir/a"; "dir/c"] ↔
       ∃ f, f ∈ ["a"; "b"; "c"; "a"] ∧ x = default f (path_for ["dir/c"; "dir/a"] f).
Proof.
  apply (files_with_filespath_result ["a"; "b"; "c"; "a"] ["dir/c"; "dir/a"]).
  by vm_compute.
Defined.

Lemma files_with_filespath_unknown_path_witness :
  ["dir/c"] ≠ [] ∧
  (∀ p, p ∈ ["dir/c"] ↔
        (basename p ∉ ["a"; "b"]) ∧ path_for ["dir/a"; "dir/c"] (basename p) = Some p) ∧
  sorted_strings ["a"; "b"] ∧ NoDup ["a"; "b"] ∧ ∀ f, f ∈ ["a"; "b"] ↔ f ∈ ["a"; "b"].
Proof.
  apply (proj2 (files_with_filespath_unknown_path ["a"; "b"] ["dir/a"; "dir/c"])
               ["dir/c"] ["a"; "b"]).
  by vm_compute.
Defined.

(** X4: with no path given nothing is raised: the files come back
    sorted, each once. *)
Theorem files_with_filespath_no_path (files : list string) :
  ∃ l, _files_with_filespath files [] = Updated l ∧
       sorted_strings l ∧ NoDup l ∧ ∀ x, x ∈ l ↔ x ∈ files.
Proof.
  destruct (_files_with_filespath_spec files [])
    as [[_ Hok]|[(p & Hp & _) _]]; [|by apply elem_of_nil in Hp].
  assert ((λ f, default f (path_for [] f)) <$> list_of_set (list_to_set files)
          = list_of_set (list_to_set files)) as Hsame.
  { transitivity (id <$> list_of_set (list_to_set files));
      [by apply list_fmap_ext | apply list_fmap_id]. }
  rewrite Hsame in Hok. eexists. split; [exact Hok|].
  split; [apply sorted_strs_sorted|]. split.
  - rewrite sorted_strs_perm. apply NoDup_elements.
  - intros x. by rewrite sorted_strs_perm, elem_of_list_of_set.
Qed.

(** ** More on the state poller *)

(** X5: when the first state that is expected or stopped is an expected
    one and no check before it times out, [wait_state] returns it, after
    exactly as many calls of the state function as states were seen; an
    expected state is returned even if it is Terminated or Error. *)
Theorem wait_state_returns_expected (vocabulary : list string) (clock : nat → Z)
    (state_fct : nat → string) (exp_str states : string)
    (expected : list string) (step : Z) (timeout : timeout_t) (k fuel : nat) :
  _states_from_str vocabulary states = Ok expected →
  (∀ j, (j ≤ k)%nat → _timeout (clock (S j)) (clock 0%nat) timeout = false) →
  (∀ j, (j < k)%nat → (state_fct j ∉ expected) ∧ (state_fct j ∉ STOPPED_STATES)) →
  state_fct k ∈ expected →
  (k < fuel)%nat →
  wait_state vocabulary clock state_fct exp_str states step timeout fuel
  = Some (mkPoll (Ok (state_fct k)) (S k)).
Proof.
  intros Hs Htime Hbefore Hexp Hfuel. unfold wait_state. rewrite Hs.
  replace fuel with (k + S (fuel - S k))%nat by lia.
  rewrite wait_loop_skip.
  - apply wait_loop_expected; [apply Htime; lia|].
    by rewrite elem_of_list_to_set.
  - intros j Hj. destruct (Hbefore j) as [He Hst]; [lia|].
    rewrite elem_of_list_to_set. split; [apply Htime; lia | done].
Qed.

Lemma wait_state_returns_expected_witness :
  wait_state demo_vocabulary Z.of_nat running_at_2 "123" "Running" 5 PlusInf 5
  = Some (mkPoll (Ok "Running") 3) ∧
  wait_state demo_vocabulary Z.of_nat always_terminated "123" "Terminated" 5
             (Ticks 10) 5
  = Some (mkPoll (Ok "Terminated") 1).
Proof.
  split.
  - apply (wait_state_returns_expected demo_vocabulary Z.of_nat running_at_2
             "123" "Running" ["Running"] 5 PlusInf 2 5).
    + reflexivity.
    + reflexivity.
    + intros j Hj. destruct j as [|[|j]]; [split; by_evaluation..|lia].
    + by_evaluation.
    + lia.
  - apply (wait_state_returns_expected demo_vocabulary Z.of_nat always_terminated
             "123" "Terminated" ["Terminated"] 5 (Ticks 10) 0 5).
    + reflexivity.
    + intros j Hj. assert (j = 0%nat) as -> by lia. by vm_compute.
    + intros j Hj. lia.
    + by_evaluation.
    + lia.
Defined.

Lemma wait_loop_no_timeout (clock : nat → Z) (state_fct : nat → string)
    (exp_str : string) (expected_states : gset string) (start_time : Z)
    (fuel i : nat) (p : poll) :
  wait_loop clock state_fct exp_str expected_states start_time PlusInf fuel i
  = Some p →
  outcome p ≠ Raise RuntimeError_timeout.
Proof.
  revert i. induction fuel as [|fuel IH]; intros i; simpl; [done|].
  repeat case_bool_decide; try (intros [= <-]; done). apply IH.
Qed.

(** X6: with the default timeout ([float('+inf')]) the timeout error is
    never raised, whatever the clock; and as long as the states are
    neither expected nor stopped the poller does not come back. *)
Theorem wait_state_infinite_timeout (vocabulary : list string) (clock : nat → Z)
    (state_fct : nat → string) (exp_str states : string) (step : Z) (fuel : nat) :
  (∀ p, wait_state vocabulary clock state_fct exp_str states step PlusInf fuel
        = Some p →
        outcome p ≠ Raise RuntimeError_timeout) ∧
  (∀ expected,
     _states_from_str vocabulary states = Ok expected →
     (∀ i, (i < fuel)%nat →
           (state_fct i ∉ expected) ∧ (state_fct i ∉ STOPPED_STATES)) →
     wait_state vocabulary clock state_fct exp_str states step PlusInf fuel
     = None).
Proof.
  split.
  - intros p. unfold wait_state.
    destruct (_states_from_str vocabulary states) as [expected|err] eqn:Hs.
    + apply wait_loop_no_timeout.
    + intros [= <-]. simpl. intros [= ->].
      unfold _states_from_str, check_experiment_state in Hs.
      by destruct (forallb _ _).
  - intros expected Hs Hst. unfold wait_state. rewrite Hs.
    replace fuel with (fuel + 0)%nat at 1 by lia.
    rewrite wait_loop_skip; [done|].
    intros j Hj. destruct (Hst j) as [He Hstop]; [lia|].
    by rewrite elem_of_list_to_set.
Qed.

Lemma wait_state_infinite_timeout_witness :
  wait_state demo_vocabulary Z.of_nat always_waiting "123" "Running" 5 PlusInf 50
  = None.
Proof.
  apply (proj2 (wait_state_infinite_timeout demo_vocabulary Z.of_nat always_waiting
                  "123" "Running" 5 50) ["Running"]).
  - reflexivity.
  - intros i _. split; by_evaluation.
Defined.

(** X7: for any timeout, the timeout error is raised at the first check
    whose reading is later than [start_time + timeout], when the states
    seen until then were neither expected nor stopped; the state function
    was then called once per earlier check and is not called again. *)
Theorem wait_state_timeout (vocabulary : list string) (clock : nat → Z)
    (state_fct : nat → string) (exp_str states : string)
    (expected : list string) (step t : Z) (k fuel : nat) :
  _states_from_str vocabulary states = Ok expected →
  (∀ j, (j < k)%nat →
        clock (S j) ≤ clock 0%nat + t ∧
        (state_fct j ∉ expected) ∧ (state_fct j ∉ STOPPED_STATES)) →
  clock (S k) > clock 0%nat + t →
  (k < fuel)%nat →
  wait_state vocabulary clock state_fct exp_str states step (Ticks t) fuel
  = Some (mkPoll (Raise RuntimeError_timeout) k).
Proof.
  intros Hs Hbefore Hlate Hfuel. unfold wait_state. rewrite Hs.
  replace fuel with (k + S (fuel - S k))%nat by lia.
  rewrite wait_loop_skip.
  - apply wait_loop_timeout. simpl. by apply bool_decide_eq_true_2.
  - intros j Hj. destruct (Hbefore j) as (Ht & He & Hst); [lia|].
    rewrite elem_of_list_to_set. split; [|done].
    simpl. apply bool_decide_eq_false_2. lia.
Qed.

Lemma wait_state_timeout_witness :
  wait_state demo_vocabulary (λ k, 5 * Z.of_nat k) always_waiting "123" "Running"
             5 (Ticks 12) 10
  = Some (mkPoll (Raise RuntimeError_timeout) 2).
Proof.
  apply (wait_state_timeout demo_vocabulary (λ k, 5 * Z.of_nat k) always_waiting
           "123" "Running" ["Running"] 5 12 2 10).
  - reflexivity.
  - intros j Hj. split; [lia|]. split; by_evaluation.
  - reflexivity.
  - lia.
Defined.

(** ** More on alias groups *)

(** X8: the alias ids assigned automatically within one process are
    pairwise distinct, whichever constructions come in between. *)
Theorem auto_aliases_distinct (reqs : list request) (cls_alias : Z) :
  NoDup (auto_aliases (construct_all reqs cls_alias).1).
Proof.
  destruct (construct_all_auto reqs cls_alias) as [-> _].
  apply NoDup_fmap_2; [apply _ | apply NoDup_seqZ].
Qed.

(** X9: the constructor call that [__repr__] prints rebuilds the alias
    it was printed from, and leaves the shared counter as it is. *)
Theorem AliasNodes_repr_round_trip (nbnodes : Z) (site archi : string)
    (mobile : bool) (_alias : option alias_arg) (cls_alias cls_alias' : Z)
    (a : AliasNodes) :
  AliasNodes_init nbnodes site archi mobile _alias cls_alias = (Ok a, cls_alias') →
  ∀ c, AliasNodes_init (req_nbnodes (AliasNodes_repr a))
                       (req_site (AliasNodes_repr a))
                       (req_archi (AliasNodes_repr a))
                       (req_mobile (AliasNodes_repr a))
                       (req_alias (AliasNodes_repr a)) c
       = (Ok a, c).
Proof.
  unfold AliasNodes_init. destruct (_valid_archi archi) eqn:Hv; simpl; [|done].
  destruct (_alias_uid _alias cls_alias) as [uid c']. intros [= <- _] c.
  simpl. by rewrite Hv.
Qed.

Lemma AliasNodes_repr_round_trip_witness :
  AliasNodes_init 5 "grenoble" "m3:at86rf231" false (Some (AliasStr "1")) 7
  = (Ok demo_alias_nodes, 7).
Proof.
  apply (AliasNodes_repr_round_trip 5 "grenoble" "m3:at86rf231" false None 0 1
           demo_alias_nodes eq_refl 7).
Defined.

(** ** Reloading an experiment *)

(** X10: the JSON object [reload_experiment] sends has the key
    [duration] only when a duration is given and the key [reservation]
    only when a start time is given, and nothing else; the values are
    decimal strings from which both numbers can be read back. *)
Theorem reload_experiment_json_keys (duration start_time : option Z) :
  reload_experiment_json duration start_time !! "duration"
  = (λ d, str (AliasInt d)) <$> duration ∧
  reload_experiment_json duration start_time !! "reservation"
  = (λ t, str (AliasInt t)) <$> start_time ∧
  (∀ k, k ≠ "duration" → k ≠ "reservation" →
        reload_experiment_json duration start_time !! k = None) ∧
  (∀ duration' start_time',
     reload_experiment_json duration start_time
     = reload_experiment_json duration' start_time' →
     duration = duration' ∧ start_time = start_time').
Proof.
  assert (∀ d s,
            reload_experiment_json d s !! "duration" = (λ d, str (AliasInt d)) <$> d ∧
            reload_experiment_json d s !! "reservation"
            = (λ t, str (AliasInt t)) <$> s) as Hkeys.
  { intros [d|] [s|]; unfold reload_experiment_json; simpl;
      rewrite ?lookup_insert_eq, ?lookup_insert_ne, ?lookup_insert_eq,
              ?lookup_empty by done; done. }
  split; [apply Hkeys|]. split; [apply Hkeys|]. split.
  - intros k Hd Hr. destruct duration, start_time; unfold reload_experiment_json;
      by rewrite ?lookup_insert_ne, ?lookup_empty by done.
  - intros d' s' Heq.
    destruct (Hkeys duration start_time) as [Hd Hs].
    destruct (Hkeys d' s') as [Hd' Hs']. rewrite Heq in Hd, Hs.
    rewrite Hd in Hd'. rewrite Hs in Hs'. split.
    + destruct duration, d'; simpl in Hd'; try done.
      injection Hd' as ->%(inj pretty). done.
    + destruct start_time, s'; simpl in Hs'; try done.
      injection Hs' as ->%(inj pretty). done.
Qed.

Lemma reload_experiment_json_keys_witness :
  reload_experiment_json (Some 30) None !! "name" = None ∧
  (Some 30 = Some 30 ∧ (None : option Z) = None).
Proof.
  pose proof (reload_experiment_json_keys (Some 30) None) as (_ & _ & Hother & Hinj).
  split.
  - by apply (Hother "name").
  - by apply (Hinj (Some 30) None).
Defined.

(** ** Loading a description *)


Section Loading.
Context `{NodeSortKey}.


End Loading.


(** ** Experiments built by additions *)

Section Built.
Context `{NodeSortKey}.

(** What a successful addition does to the nodes. *)
Lemma add_exp_resources_nodes (e e' : _Experiment) (res : resources) :
  add_exp_resources e res = Ok e' →
  (res_type res = "physical" ∧
   ∃ l reg, res_nodes res = NodesList l ∧ nodes e = NodeAddr <$> reg ∧
            list_to_set reg ∩ list_to_set l = (∅ : gset string) ∧
            nodes e' = NodeAddr <$> sorted (list_of_set (list_to_set (reg ++ l)))) ∨
  (res_type res = "alias" ∧
   ∃ a, res_nodes res = NodesAlias a ∧ nodes e' = nodes e ++ [NodeAlias a]).
Proof.
  intros (e2 & e3 & e4 & He2 & He3 & He4 & He')%add_exp_resources_Ok.
  apply add_other_associations_Ok in He' as (_ & -> & _).
  assert (nodes e3 = nodes e2) as Hn3.
  { destruct (res_firmware res); [|by injection He3 as <-].
    by apply extend_firmwareassociations_Ok in He3 as (m & -> & _). }
  assert (nodes e4 = nodes e3) as ->.
  { destruct (res_profile res); [|by injection He4 as <-].
    by apply extend_profileassociations_Ok in He4 as (m & -> & _). }
  rewrite Hn3. clear He3 He4 Hn3. unfold _register_nodes in He2. simpl in He2.
  destruct (decide (res_type res = "physical")) as [Hphys|Hnp].
  - left. split; [done|]. destruct (res_nodes res) as [l|a]; [|done].
    apply set_physical_nodes_Ok in He2 as (reg & Hn & _ & Hdisj & ->).
    by exists l, reg.
  - right. destruct (decide (res_type res = "alias")) as [Halias|]; [|done].
    split; [done|]. destruct (res_nodes res) as [l|a]; [done|].
    apply set_alias_nodes_Ok in He2 as [_ ->]. by exists a.
Qed.

(** X12: in alias mode the nodes of the experiment are the alias groups
    in the order they were added, one entry per addition: a group added
    twice is there twice. *)
Theorem alias_nodes_in_order (e e' : _Experiment) (rs : list resources) :
  add_all_resources e rs = Ok e' → type e' = Some "alias" →
  nodes e' = nodes e ++ alias_nodes_of rs.
Proof.
  revert e. induction rs as [|res rs IH]; intros e; simpl.
  - intros [= <-] _. by rewrite app_nil_r.
  - intros (e1 & He1 & He')%bind_Ok Ht'.
    pose proof (add_exp_resources_type _ _ _ He1) as [Ht1 _].
    pose proof (add_all_resources_type _ _ _ _ Ht1 He') as [Ht'' _].
    assert (res_type res = "alias") as Hres by congruence.
    rewrite (IH e1 He' Ht').
    apply add_exp_resources_nodes in He1 as [[Hphys _]|(_ & a & Ha & ->)];
      [congruence|].
    unfold alias_nodes_of. simpl. rewrite Ha. simpl. by rewrite <-app_assoc.
Qed.

(** The shape of an experiment survives every successful addition. *)
Lemma built_shape_add_exp_resources (e e' : _Experiment) (res : resources) :
  add_exp_resources e res = Ok e' → built_shape e'.
Proof.
  intros He'. pose proof (add_exp_resources_type _ _ _ He') as [Ht' _].
  apply add_exp_resources_nodes in He' as
      [(Hphys & l & reg & _ & _ & _ & Hn)|(Halias & _)].
  - right; left. split; [congruence | by eexists].
  - right; right. congruence.
Qed.

Lemma built_shape_add_all_resources (e e' : _Experiment) (rs : list resources) :
  built_shape e → add_all_resources e rs = Ok e' → built_shape e'.
Proof.
  revert e. induction rs as [|res rs IH]; intros e Hshape; simpl.
  - by intros [= <-].
  - intros (e1 & He1 & He')%bind_Ok. eapply IH; [|done].
    by eapply built_shape_add_exp_resources.
Qed.

Lemma built_shape_init name duration start_time :
  built_shape (_Experiment_init name duration start_time).
Proof. by left. Qed.

(** X13: on an experiment built by additions, adding resources made by
    [exp_resources] raises nothing but the three [ValueError]s of the
    builder: the mode conflict, the duplicate nodes and the conflicting
    association.  No [KeyError], [TypeError] or [AttributeError] comes
    out of the dispatch on the type. *)
Theorem exp_resources_errors (name : option string) (duration : Z)
    (start_time : option Z) (rs : list resources) (e : _Experiment)
    (ns : nodes_arg) (firmware profile : option string)
    (assocs : list (string * string)) (err : error) :
  add_all_resources (_Experiment_init name duration start_time) rs = Ok e →
  add_exp_resources e (exp_resources ns firmware profile assocs) = Raise err →
  err = ValueError_type ∨
  (∃ reported, err = ValueError_multiple reported) ∨
  (∃ t conflicts, err = ValueError_conflict t conflicts).
Proof.
  intros Hbuilt.
  assert (built_shape e) as Hshape
    by (eapply built_shape_add_all_resources; [apply built_shape_init | done]).
  unfold add_exp_resources.
  intros [Hr|(e1 & He1 & Hr)]%bind_Raise;
    [left; by apply _set_type_Raise in Hr as [? _]|].
  apply _set_type_Ok in He1 as [-> Ht].
  apply bind_Raise in Hr as [Hr|(e2 & He2 & Hr)].
  { unfold _register_nodes in Hr. destruct ns as [l|a]; simpl in *.
    - assert (∃ reg, nodes e = NodeAddr <$> reg) as [reg Hreg].
      { destruct Hshape as [[_ Hn]|[[_ Hn]|Ha]]; [by exists [] | done |].
        destruct Ht; congruence. }
      rewrite (set_physical_nodes_spec _ reg) in Hr by (by auto).
      cbv zeta in Hr. destruct (decide _); [|done]. injection Hr as <-. eauto.
    - apply set_alias_nodes_Raise in Hr as [-> _]. by left. }
  apply bind_Raise in Hr as [Hr|(refs & Hrefs & Hr)].
  { apply _register_nodes_Ok in He2. unfold _nodes_to_assoc in Hr.
    rewrite He2 in Hr. by destruct ns. }
  right; right.
  apply bind_Raise in Hr as [Hr|(e3 & He3 & Hr)].
  { destruct firmware; [|done]. simpl in Hr.
    unfold extend_firmwareassociations in Hr.
    apply bind_Raise in Hr as [Hr|(m & _ & Hr)]; [|done].
    apply extendvalues_Raise in Hr as [c ->]. eauto. }
  apply bind_Raise in Hr as [Hr|(e4 & He4 & Hr)].
  { destruct profile; [|done]. simpl in Hr.
    unfold extend_profileassociations in Hr.
    apply bind_Raise in Hr as [Hr|(m & _ & Hr)]; [|done].
    apply extendvalues_Raise in Hr as [c ->]. eauto. }
  by apply add_other_associations_Raise in Hr.
Qed.

Lemma add_other_associations_is_Some (e e' : _Experiment) refs assocs :
  add_other_associations e refs assocs = Ok e' →
  is_Some (associations e) → is_Some (associations e').
Proof.
  revert e. induction assocs as [|[t n] assocs IH]; intros e; simpl.
  - by intros [= <-].
  - intros (e1 & He1 & He')%bind_Ok _.
    apply _add_nodes_association_Ok in He1 as (m & -> & _).
    eapply IH; [done | by eexists].
Qed.

(** The association attributes come into being with the first
    association of their kind. *)
Lemma add_exp_resources_lazy (e e' : _Experiment) (res : resources) :
  add_exp_resources e res = Ok e' →
  (firmwareassociations e' = None ↔
   firmwareassociations e = None ∧ res_firmware res = None) ∧
  (profileassociations e' = None ↔
   profileassociations e = None ∧ res_profile res = None) ∧
  (associations e' = None ↔
   associations e = None ∧ res_associations res = []).
Proof.
  intros (e2 & e3 & e4 & He2 & He3 & He4 & He')%add_exp_resources_Ok.
  apply _register_nodes_associations in He2 as (Hf2 & Hp2 & Ha2). simpl in *.
  assert (associations e' = None ↔
          associations e4 = None ∧ res_associations res = []) as Ha'.
  { destruct (res_associations res) as [|[t n] assocs]; simpl in He'.
    - injection He' as <-. tauto.
    - apply bind_Ok in He' as (e5 & He5 & He').
      apply _add_nodes_association_Ok in He5 as (m & -> & _).
      assert (is_Some (associations e')) as [d Hd].
      { eapply add_other_associations_is_Some; [done | by eexists]. }
      rewrite Hd. split; [done | by intros [_ ?]]. }
  pose proof (add_other_associations_Ok _ _ _ _ He') as (_ & _ & Hf' & Hp').
  rewrite Hf', Hp', Ha'.
  destruct (res_firmware res) as [fw|].
  - apply extend_firmwareassociations_Ok in He3 as (m & -> & _).
    destruct (res_profile res) as [pr|].
    + apply extend_profileassociations_Ok in He4 as (m' & -> & _). simpl.
      rewrite Ha2. split; [|split]; try tauto; split; try done; by intros [_ ?].
    + injection He4 as <-. simpl. rewrite Hp2, Ha2.
      split; [|split]; try tauto. split; try done; by intros [_ ?].
  - injection He3 as <-. destruct (res_profile res) as [pr|].
    + apply extend_profileassociations_Ok in He4 as (m' & -> & _). simpl.
      rewrite Hf2, Ha2. split; [|split]; try tauto. split; try done; by intros [_ ?].
    + injection He4 as <-. rewrite Hf2, Hp2, Ha2. tauto.
Qed.

(** X14: the association attributes are created on first use: after
    building, [firmwareassociations] is [None] exactly when no resources
    came with a firmware, [profileassociations] when none came with a
    profile, and [associations] when none came with other associations. *)
Theorem association_attributes_lazy (name : option string) (duration : Z)
    (start_time : option Z) (rs : list resources) (e : _Experiment) :
  add_all_resources (_Experiment_init name duration start_time) rs = Ok e →
  (firmwareassociations e = None ↔ Forall (λ res, res_firmware res = None) rs) ∧
  (profileassociations e = None ↔ Forall (λ res, res_profile res = None) rs) ∧
  (associations e = None ↔ Forall (λ res, res_associations res = []) rs).
Proof.
  assert (∀ e0,
            add_all_resources e0 rs = Ok e →
            (firmwareassociations e = None ↔
             firmwareassociations e0 = None ∧
             Forall (λ res, res_firmware res = None) rs) ∧
            (profileassociations e = None ↔
             profileassociations e0 = None ∧
             Forall (λ res, res_profile res = None) rs) ∧
            (associations e = None ↔
             associations e0 = None ∧
             Forall (λ res, res_associations res = []) rs)) as Hgen.
  { induction rs as [|res rs IH]; intros e0; simpl.
    - intros [= <-]. rewrite !Forall_nil. tauto.
    - intros (e1 & He1 & He')%bind_Ok.
      destruct (IH e1 He') as (Hf & Hp & Ha).
      destruct (add_exp_resources_lazy _ _ _ He1) as (Hf1 & Hp1 & Ha1).
      rewrite !Forall_cons. rewrite Hf, Hp, Ha, Hf1, Hp1, Ha1. tauto. }
  intros He. destruct (Hgen _ He) as (Hf & Hp & Ha). simpl in *.
  rewrite Hf, Hp, Ha. tauto.
Qed.

End Built.

Lemma alias_nodes_in_order_witness :
  nodes (demo_built [demo_alias_group; demo_alias_group])
  = nodes demo_experiment ++ [NodeAlias demo_alias_nodes; NodeAlias demo_alias_nodes].
Proof.
  apply (@alias_nodes_in_order length_sort_key demo_experiment
           (demo_built [demo_alias_group; demo_alias_group])
           [demo_alias_group; demo_alias_group]); by vm_compute.
Defined.

Lemma exp_resources_errors_witness :
  ValueError_multiple ["m3-1.grenoble.iot-lab.info"] = ValueError_type ∨
  (∃ reported, ValueError_multiple ["m3-1.grenoble.iot-lab.info"]
               = ValueError_multiple reported) ∨
  (∃ t conflicts, ValueError_multiple ["m3-1.grenoble.iot-lab.info"]
                  = ValueError_conflict t conflicts).
Proof.
  apply (@exp_resources_errors length_sort_key (Some "demo") 20 None [demo_group_1]
           (demo_built [demo_group_1])
           (NodesList ["m3-7.lille.iot-lab.info"; "m3-1.grenoble.iot-lab.info"])
           (Some "a.elf") None []); by vm_compute.
Defined.

Lemma association_attributes_lazy_witness :
  (firmwareassociations (demo_built [demo_group_2]) = None ↔
   Forall (λ res, res_firmware res = None) [demo_group_2]) ∧
  (profileassociations (demo_built [demo_group_2]) = None ↔
   Forall (λ res, res_profile res = None) [demo_group_2]) ∧
  (associations (demo_built [demo_group_2]) = None ↔
   Forall (λ res, res_associations res = []) [demo_group_2]).
Proof.
  apply (@association_attributes_lazy length_sort_key (Some "demo") 20 None
           [demo_group_2] (demo_built [demo_group_2])).
  by vm_compute.
Defined.

Section BuiltNodes.
Context `{NodeSortKey}.

Lemma NodeAddr_fmap_inj (l k : list string) :
  NodeAddr <$> l = NodeAddr <$> k → l = k.
Proof. intros Heq. by rewrite <-(node_ref_NodeAddr l), Heq, node_ref_NodeAddr. Qed.

Lemma addresses_of_cons (res : resources) (rs : list resources) :
  addresses_of (res :: rs)
  = match res_nodes res with NodesList l => l | NodesAlias _ => [] end
    ++ addresses_of rs.
Proof. reflexivity. Qed.

(** Another lemma of the same kind as [add_exp_resources_new_nodes], for
    an alias group whose id is new to the experiment. *)
Lemma add_exp_resources_new_alias (e : _Experiment) (a : AliasNodes)
    (firmware profile : option string) (assocs : list (string * string)) :
  type e = None ∨ type e = Some "alias" →
  refs_registered e →
  alias a ∉ node_ref <$> nodes e →
  NoDup (fst <$> assocs) →
  ∃ e', add_exp_resources e
          (mkResources "alias" (NodesAlias a) firmware profile assocs)
        = Ok e'.
Proof.
  intros Ht (Hf & Hp & Ha) Hfresh Hkeys.
  assert (∀ x, x ∈ [alias a] → x ∉ node_ref <$> nodes e) as Hnew
    by (by intros x ->%list_elem_of_singleton).
  unfold add_exp_resources. simpl.
  assert (_set_type e "alias" = Ok (set_type e (Some "alias"))) as ->.
  { destruct Ht; [by apply _set_type_None | by apply _set_type_same]. }
  simpl. unfold _register_nodes. simpl.
  unfold _nodes_to_assoc. simpl.
  assert (∃ e3, match firmware with
                | Some fw =>
                    extend_firmwareassociations
                      (set_nodes (set_type (set_type e (Some "alias")) (Some "alias"))
                                 (nodes e ++ [NodeAlias a]))
                      (nodes_association_name "firmware" fw) [alias a]
                | None => Ok _
                end = Ok e3 ∧
                profileassociations e3 = profileassociations e ∧
                associations e3 = associations e) as (e3 & -> & Hp3 & Ha3).
  { destruct firmware as [fw|]; [|by eauto].
    unfold extend_firmwareassociations. simpl.
    destruct (extendvalues_new_refs
                (setattr_if_none (firmwareassociations e)
                                 (AssociationsMap_new "firmware"))
                (nodes_association_name "firmware" fw) [alias a]
                (node_ref <$> nodes e))
      as [m Hm]; [by apply entries_within_setattr_if_none | done |].
    rewrite Hm. simpl. by eauto. }
  simpl.
  assert (∃ e4, match profile with
                | Some pr =>
                    extend_profileassociations e3
                      (nodes_association_name "profile" pr) [alias a]
                | None => Ok e3
                end = Ok e4 ∧
                associations e4 = associations e) as (e4 & -> & Ha4).
  { destruct profile as [pr|]; [|by eauto].
    unfold extend_profileassociations. rewrite Hp3.
    destruct (extendvalues_new_refs
                (setattr_if_none (profileassociations e)
                                 (AssociationsMap_new "profile"))
                (nodes_association_name "profile" pr) [alias a]
                (node_ref <$> nodes e))
      as [m Hm]; [by apply entries_within_setattr_if_none | done |].
    rewrite Hm. simpl. by eauto. }
  simpl. apply (add_other_associations_new_refs _ _ (node_ref <$> nodes e));
    [done| |done].
  rewrite Ha4. intros d t m Hd Hm _. by eapply Ha.
Qed.

(** X15: a fresh experiment takes any first resources made by
    [exp_resources]: the first addition raises nothing (the keys of the
    other associations are distinct, as those of a dict are). *)
Theorem first_resources_accepted (name : option string) (duration : Z)
    (start_time : option Z) (ns : nodes_arg) (firmware profile : option string)
    (assocs : list (string * string)) :
  NoDup (fst <$> assocs) →
  ∃ e', add_exp_resources (_Experiment_init name duration start_time)
          (exp_resources ns firmware profile assocs) = Ok e'.
Proof.
  intros Hkeys. destruct ns as [l|a]; unfold exp_resources.
  - apply (add_exp_resources_new_nodes _ []);
      [by left | done | apply refs_registered_init | | done].
    by intros x ?%elem_of_nil.
  - apply add_exp_resources_new_alias;
      [by left | apply refs_registered_init | | done].
    by intros ?%elem_of_nil.
Qed.

(** X16: in alias mode, an alias group whose id is not the id of a group
    already in the experiment is added without error. *)
Theorem new_alias_accepted (name : option string) (duration : Z)
    (start_time : option Z) (rs : list resources) (e : _Experiment)
    (a : AliasNodes) (firmware profile : option string)
    (assocs : list (string * string)) :
  add_all_resources (_Experiment_init name duration start_time) rs = Ok e →
  type e = Some "alias" →
  alias a ∉ node_ref <$> nodes e →
  NoDup (fst <$> assocs) →
  ∃ e', add_exp_resources e
          (exp_resources (NodesAlias a) firmware profile assocs) = Ok e'.
Proof.
  intros Hbuilt Ht Hfresh Hkeys. unfold exp_resources.
  apply add_exp_resources_new_alias; [by right | | done..].
  eapply refs_registered_add_all_resources; [|done]. apply refs_registered_init.
Qed.

Context `{!NodeSortKeyTotal}.

Lemma physical_nodes_from (e e' : _Experiment) (rs : list resources)
    (reg : list string) :
  add_all_resources e rs = Ok e' → type e' = Some "physical" →
  nodes e = NodeAddr <$> reg → NoDup reg → sorted_by_key reg →
  ∃ l, nodes e' = NodeAddr <$> l ∧ NoDup l ∧ sorted_by_key l ∧
       (∀ x, x ∈ l ↔ x ∈ reg ∨ x ∈ addresses_of rs) ∧
       ∀ rs1 res rs2 l0 x,
         rs = rs1 ++ res :: rs2 → res_nodes res = NodesList l0 → x ∈ l0 →
         (x ∉ reg) ∧ (x ∉ addresses_of rs1).
Proof.
  revert e reg. induction rs as [|res rs IH]; intros e reg;
    cbn [add_all_resources].
  - intros [= <-] _ Hn Hnd Hs. exists reg. split; [done|]. split; [done|].
    split; [done|]. split.
    + intros x. split; [by left | by intros [?|?%elem_of_nil]].
    + intros rs1 res rs2 l0 x Heq. by destruct rs1.
  - intros (e1 & He1 & He')%bind_Ok Ht' Hn Hnd Hs.
    pose proof (add_exp_resources_type _ _ _ He1) as [Ht1 _].
    pose proof (add_all_resources_type _ _ _ _ Ht1 He') as [Ht'' _].
    apply add_exp_resources_nodes in He1
      as [(_ & l0 & reg' & Hl0 & Hn' & Hdisj & Hn1)|[Halias _]]; [|congruence].
    rewrite Hn in Hn'. apply NodeAddr_fmap_inj in Hn' as <-.
    set (l1 := sorted (list_of_set (list_to_set (reg ++ l0)))) in *.
    assert (∀ x, x ∈ l1 ↔ x ∈ reg ∨ x ∈ l0) as Hl1.
    { intros x. unfold l1, list_of_set.
      by rewrite elem_of_sorted, elem_of_elements, elem_of_list_to_set, elem_of_app. }
    destruct (IH e1 l1 He' Ht' Hn1) as (l & Hl & Hnd' & Hs' & Hin & Hsep).
    { by apply NoDup_sorted, NoDup_elements. }
    { apply Sorted_sorted. }
    exists l. split; [done|]. split; [done|]. split; [done|]. split.
    + intros x. rewrite Hin, Hl1, addresses_of_cons, Hl0, elem_of_app. tauto.
    + intros rs1 res' rs2 l0' x Heq Hres' Hx. destruct rs1 as [|r rs1].
      * injection Heq as <- <-. rewrite Hl0 in Hres'. injection Hres' as <-.
        split; [|by intros ?%elem_of_nil].
        intros Hreg. assert (x ∈ (list_to_set reg ∩ list_to_set l0 : gset string))
          as Hboth by (by rewrite elem_of_intersection, !elem_of_list_to_set).
        rewrite Hdisj in Hboth. by apply not_elem_of_empty in Hboth.
      * injection Heq as <- ->.
        destruct (Hsep rs1 res' rs2 l0' x eq_refl Hres' Hx) as [Hx1 Hx2].
        rewrite Hl1 in Hx1. rewrite addresses_of_cons, Hl0, elem_of_app. tauto.
Qed.

(** X17: in physical mode the nodes of a built experiment are the
    addresses of all the resources added, each once and in the order of
    the key; no address was brought by two different resources. *)
Theorem physical_nodes_built (name : option string) (duration : Z)
    (start_time : option Z) (rs : list resources) (e : _Experiment) :
  add_all_resources (_Experiment_init name duration start_time) rs = Ok e →
  type e = Some "physical" →
  ∃ l, nodes e = NodeAddr <$> l ∧ NoDup l ∧ sorted_by_key l ∧
       (∀ x, x ∈ l ↔ x ∈ addresses_of rs) ∧
       ∀ rs1 res rs2 l0 x,
         rs = rs1 ++ res :: rs2 → res_nodes res = NodesList l0 → x ∈ l0 →
         x ∉ addresses_of rs1.
Proof.
  intros He Ht.
  destruct (physical_nodes_from _ _ _ [] He Ht eq_refl)
    as (l & Hl & Hnd & Hs & Hin & Hsep); [apply NoDup_nil_2 | constructor|].
  exists l. split; [done|]. split; [done|]. split; [done|]. split.
  - intros x. rewrite Hin. split; [by intros [?%elem_of_nil|?] | by right].
  - intros rs1 res rs2 l0 x Heq Hres Hx. by eapply Hsep.
Qed.

End BuiltNodes.

Lemma first_resources_accepted_witness :
  ∃ e', add_exp_resources (H:=length_sort_key) demo_experiment demo_group_1 = Ok e'.
Proof.
  apply (@first_resources_accepted length_sort_key (Some "demo") 20 None
           (NodesList ["m3-2.grenoble.iot-lab.info"; "m3-1.grenoble.iot-lab.info";
                       "m3-2.grenoble.iot-lab.info"])
           (Some "firmwares/b.elf") (Some "battery") [("script", "scripts/run.sh")]).
  apply NoDup_singleton.
Defined.

Lemma new_alias_accepted_witness :
  ∃ e', add_exp_resources (H:=length_sort_key) (demo_built [demo_alias_group])
          (exp_resources (NodesAlias demo_alias_nodes_2) (Some "b.elf") None [])
        = Ok e'.
Proof.
  apply (@new_alias_accepted length_sort_key (Some "demo") 20 None
           [demo_alias_group] (demo_built [demo_alias_group]) demo_alias_nodes_2
           (Some "b.elf") None []).
  - by vm_compute.
  - reflexivity.
  - by_evaluation.
  - apply NoDup_nil_2.
Defined.

Lemma physical_nodes_built_witness :
  ∃ l, nodes (demo_built [demo_group_1; demo_group_2]) = NodeAddr <$> l ∧
       NoDup l ∧ sorted_by_key (H:=length_sort_key) l ∧
       (∀ x, x ∈ l ↔ x ∈ addresses_of [demo_group_1; demo_group_2]) ∧
       ∀ rs1 res rs2 l0 x,
         [demo_group_1; demo_group_2] = rs1 ++ res :: rs2 →
         res_nodes res = NodesList l0 → x ∈ l0 → x ∉ addresses_of rs1.
Proof.
  apply (@physical_nodes_built length_sort_key length_sort_key_total
           (Some "demo") 20 None).
  - by vm_compute.
  - reflexivity.
Defined.

(** ** The description read back *)

Section ReadBack.
Context `{NodeSortKey} `{!NodeSortKeyTotal}.

Lemma typed_maps_init name duration start_time :
  typed_maps (_Experiment_init name duration start_time).
Proof. by split; [|split]. Qed.

Lemma assoctype_extendvalues (m m' : AssociationsMap) name refs :
  extendvalues m name refs = Ok m' → assoctype m' = assoctype m.
Proof. by intros ->%extendvalues_Ok. Qed.

Lemma typed_maps__add_nodes_association (e e' : _Experiment) refs t n :
  typed_maps e → _add_nodes_association e refs t n = Ok e' → typed_maps e'.
Proof.
  intros (Hf & Hp & Ha) He'.
  apply _add_nodes_association_Ok in He' as (m & -> & Hm).
  split; [done|]. split; [done|]. simpl.
  intros d t' m' [= <-] Hlook.
  destruct (decide (t = t')) as [<-|Hne].
  - rewrite lookup_insert_eq in Hlook. injection Hlook as <-.
    rewrite (assoctype_extendvalues _ _ _ _ Hm).
    destruct (associations e) as [d|] eqn:Hd; simpl.
    + destruct (d !! t) as [m0|] eqn:Hm0; simpl; [by eauto | done].
    + by rewrite lookup_empty.
  - rewrite lookup_insert_ne in Hlook by done.
    destruct (associations e) as [d|] eqn:Hd; simpl in Hlook; [by eauto|].
    by rewrite lookup_empty in Hlook.
Qed.

Lemma typed_maps_add_other_associations (e e' : _Experiment) refs assocs :
  typed_maps e → add_other_associations e refs assocs = Ok e' → typed_maps e'.
Proof.
  revert e. induction assocs as [|[t n] assocs IH]; intros e Hty; simpl.
  - by intros [= <-].
  - intros (e1 & He1 & He')%bind_Ok. eapply IH; [|done].
    by eapply typed_maps__add_nodes_association.
Qed.

Lemma typed_maps_add_exp_resources (e e' : _Experiment) (res : resources) :
  typed_maps e → add_exp_resources e res = Ok e' → typed_maps e'.
Proof.
  intros (Hf & Hp & Ha) (e2 & e3 & e4 & He2 & He3 & He4 & He')%add_exp_resources_Ok.
  apply _register_nodes_associations in He2 as (Hf2 & Hp2 & Ha2). simpl in *.
  eapply typed_maps_add_other_associations; [|done].
  assert (typed_maps e2) as Hty2.
  { unfold typed_maps. by rewrite Hf2, Hp2, Ha2. }
  assert (typed_maps e3) as Hty3.
  { destruct (res_firmware res); [|by injection He3 as <-].
    apply extend_firmwareassociations_Ok in He3 as (m & -> & Hm).
    destruct Hty2 as (Hf' & Hp' & Ha').
    split; [|by split]. simpl. intros m' [= <-].
    rewrite (assoctype_extendvalues _ _ _ _ Hm).
    destruct (firmwareassociations e2); simpl; [by auto | done]. }
  destruct (res_profile res); [|by injection He4 as <-].
  apply extend_profileassociations_Ok in He4 as (m & -> & Hm).
  destruct Hty3 as (Hf' & Hp' & Ha').
  split; [done|]. split; [|done]. simpl. intros m' [= <-].
  rewrite (assoctype_extendvalues _ _ _ _ Hm).
  destruct (profileassociations e3); simpl; [by auto | done].
Qed.

Lemma typed_maps_add_all_resources (e e' : _Experiment) (rs : list resources) :
  typed_maps e → add_all_resources e rs = Ok e' → typed_maps e'.
Proof.
  revert e. induction rs as [|res rs IH]; intros e Hty; simpl.
  - by intros [= <-].
  - intros (e1 & He1 & He')%bind_Ok. eapply IH; [|done].
    by eapply typed_maps_add_exp_resources.
Qed.

Lemma from_list_of_map (m : AssociationsMap) (t : string) :
  wf_map m → assoctype m = t →
  from_list (Some (AssociationsMap_list m)) t = Some m.
Proof.
  intros [Hkeys Hfixed] <-. destruct m as [t es]. simpl in *.
  unfold AssociationsMap_list. simpl. by rewrite load_entries_from.
Qed.

(** What [from_dict] makes of the description of an experiment. *)
Lemma from_dict_serialize (e : _Experiment) :
  wf_experiment e → typed_maps e →
  from_dict (serialize e)
  = Ok (set_nodes e (loaded_node <$> (node_description <$> nodes e))).
Proof.
  intros (Hwf & Hwp & Hwa) (Hf & Hp & Ha).
  unfold from_dict, serialize, _load_assocs. simpl. f_equal.
  destruct e as [du r n t ns fa pa oa].
  unfold set_nodes, set_associations, set_profileassociations,
    set_firmwareassociations. simpl in *. f_equal.
  - destruct fa as [m|]; simpl; [|done]. by apply from_list_of_map; auto.
  - destruct pa as [m|]; simpl; [|done]. by apply from_list_of_map; auto.
  - destruct oa as [d|]; simpl; [|done]. f_equal. apply map_eq. intros k.
    rewrite map_lookup_imap, lookup_fmap.
    destruct (d !! k) as [m|] eqn:Hm; simpl; [|done].
    apply from_list_of_map; by eauto.
Qed.

(** X18: reading back the description of a built experiment gives the
    experiment itself, except that its [AliasNodes] objects have become
    plain dicts: outside alias mode the experiment read back is equal to
    the one serialised, and in every mode it asks for the same files. *)
Theorem from_dict_serialize_built (name : option string) (duration : Z)
    (start_time : option Z) (rs : list resources) (e : _Experiment) :
  add_all_resources (_Experiment_init name duration start_time) rs = Ok e →
  ∃ e', from_dict (serialize e) = Ok e' ∧
        e' = set_nodes e (loaded_node <$> (node_description <$> nodes e)) ∧
        (type e ≠ Some "alias" → e' = e) ∧
        filenames e' = filenames e.
Proof.
  intros Hbuilt. eexists. split.
  - apply from_dict_serialize.
    + eapply wf_add_all_resources; [apply wf_experiment_init | done].
    + eapply typed_maps_add_all_resources; [apply typed_maps_init | done].
  - split; [done|]. split; [|done]. intros Hna.
    assert (built_shape e) as [[_ Hn]|[(_ & l & Hn)|?]]
      by (eapply built_shape_add_all_resources; [apply built_shape_init | done]);
      [| |done].
    + destruct e as [du r n t ns fa pa oa]. simpl in Hn. by subst ns.
    + destruct e as [du r n t ns fa pa oa]. simpl in Hn. subst ns.
      unfold set_nodes. simpl. f_equal.
      rewrite <-!list_fmap_compose. by apply list_fmap_ext.
Qed.

End ReadBack.

Lemma from_dict_serialize_built_witness :
  ∃ e', from_dict (H:=length_sort_key)
          (serialize (demo_built [demo_group_1; demo_group_2])) = Ok e' ∧
        e' = set_nodes (demo_built [demo_group_1; demo_group_2])
               (loaded_node <$> (node_description
                                   <$> nodes (demo_built [demo_group_1; demo_group_2]))) ∧
        (type (demo_built [demo_group_1; demo_group_2]) ≠ Some "alias" →
         e' = demo_built [demo_group_1; demo_group_2]) ∧
        filenames e' = filenames (demo_built [demo_group_1; demo_group_2]).
Proof.
  apply (@from_dict_serialize_built length_sort_key length_sort_key_total
           (Some "demo") 20 None [demo_group_1; demo_group_2]).
  by vm_compute.
Defined.

(** ** The authentication command *)

(** X19: the password file is written only once the credentials were
    checked and found valid, for the user name given and for the very
    password that was checked: the one of the options, or the one typed
    at the prompt when the options give none (or an empty one); and
    whenever the command answers "Written" this check and this write are
    the last two things it did. *)
Theorem auth_password_written (c : Auth.collaborators) (o : Auth.opts) :
  (∀ u p,
     Auth.WritePasswordFile u p ∈ (Auth.auth_parse_and_run c o).2 →
     Auth.valid_credentials c u p = true ∧
     Auth.username o = Some u ∧ u ≠ "" ∧
     (Auth.password o = Some p ∧ p ≠ "" ∨
      p = Auth.typed_password c ∧ Auth.truthy_str (Auth.password o) = false) ∧
     Auth.CheckUserCredentials u p ∈ (Auth.auth_parse_and_run c o).2 ∧
     (Auth.auth_parse_and_run c o).1 = Auth.Return "Written") ∧
  ((Auth.auth_parse_and_run c o).1 = Auth.Return "Written" →
   ∃ u p asked,
     (Auth.auth_parse_and_run c o).2
     = asked ++ [Auth.CheckUserCredentials u p; Auth.WritePasswordFile u p] ∧
     (asked = [] ∨ asked = [Auth.GetPass])) ∧
  ((Auth.auth_parse_and_run c o).1 ≠ Auth.Return "Written" →
   ∀ u p, Auth.WritePasswordFile u p ∉ (Auth.auth_parse_and_run c o).2).
Proof.
  unfold Auth.auth_parse_and_run.
  destruct (Auth.user_key o || Auth.truthy_list (Auth.key_file o)) eqn:Hkey.
  { split; [|split].
    - intros u p Hin. unfold Auth.install_ssh_key in Hin. simpl in Hin.
      destruct (Auth.key_file o) as [[|k ks]|];
        repeat (apply elem_of_cons in Hin as [?|Hin]; [done|]);
        by apply elem_of_nil in Hin.
    - done.
    - intros _ u p Hin. unfold Auth.install_ssh_key in Hin. simpl in Hin.
      destruct (Auth.key_file o) as [[|k ks]|];
        repeat (apply elem_of_cons in Hin as [?|Hin]; [done|]);
        by apply elem_of_nil in Hin. }
  destruct (Auth.username o) as [user|] eqn:Huser; simpl;
    [|split; [by intros u p ?%elem_of_nil | split; [done|]];
      by intros _ u p ?%elem_of_nil].
  destruct (String.eqb_spec user "") as [->|Hne]; simpl;
    [split; [by intros u p ?%elem_of_nil | split; [done|]];
     by intros _ u p ?%elem_of_nil|].
  destruct (Auth.truthy_str (Auth.password o)) eqn:Hpass.
  - destruct (Auth.password o) as [pass|] eqn:Hp; [|done]. simpl in *.
    assert (pass ≠ "") as Hpne.
    { intros ->. done. }
    destruct (Auth.valid_credentials c user pass) eqn:Hvalid; simpl.
    + split; [|split; [intros _; exists user, pass, []; by auto | done]].
      intros u p [?|[[= -> ->]|?%elem_of_nil]%elem_of_cons]%elem_of_cons;
        [done| |done].
      repeat split; first [done | by left | by right | by right; left].
    + split; [|split; [done|]].
      * intros u p [?|?%elem_of_nil]%elem_of_cons; done.
      * intros _ u p [?|?%elem_of_nil]%elem_of_cons; done.
  - destruct (Auth.valid_credentials c user (Auth.typed_password c)) eqn:Hvalid;
      simpl.
    + split; [|split; [intros _; eexists user, _, [Auth.GetPass]; by auto | done]].
      intros u p [?|[?|[[= -> ->]|?%elem_of_nil]%elem_of_cons]%elem_of_cons]
               %elem_of_cons; [done|done| |done].
      repeat split; first [done | by left | by right | by right; left].
    + split; [|split; [done|]].
      * intros u p [?|[?|?%elem_of_nil]%elem_of_cons]%elem_of_cons; done.
      * intros _ u p [?|[?|?%elem_of_nil]%elem_of_cons]%elem_of_cons; done.
Qed.

Lemma auth_password_written_witness :
  (Auth.valid_credentials demo_collaborators "alice" "secret" = true ∧
   Auth.username demo_opts_login = Some "alice" ∧ "alice" ≠ "" ∧
   (Auth.password demo_opts_login = Some "secret" ∧ "secret" ≠ "" ∨
    "secret" = Auth.typed_password demo_collaborators ∧
    Auth.truthy_str (Auth.password demo_opts_login) = false) ∧
   Auth.CheckUserCredentials "alice" "secret"
     ∈ (Auth.auth_parse_and_run demo_collaborators demo_opts_login).2 ∧
   (Auth.auth_parse_and_run demo_collaborators demo_opts_login).1
   = Auth.Return "Written") ∧
  (∃ u p asked,
     (Auth.auth_parse_and_run demo_collaborators demo_opts_login).2
     = asked ++ [Auth.CheckUserCredentials u p; Auth.WritePasswordFile u p] ∧
     (asked = [] ∨ asked = [Auth.GetPass])) ∧
  ∀ u p, Auth.WritePasswordFile u p
         ∉ (Auth.auth_parse_and_run demo_collaborators demo_opts_keys).2.
Proof.
  destruct (auth_password_written demo_collaborators demo_opts_login)
    as (Hwrite & Hlast & _).
  destruct (auth_password_written demo_collaborators demo_opts_keys)
    as (_ & _ & Hnever).
  split; [|split].
  - apply (Hwrite "alice" "secret").
    by apply (list_elem_of_lookup_2 _ 2%nat).
  - by apply Hlast.
  - by apply Hnever.
Defined.

(** X20: a key option wins over everything else: the command installs
    one key and answers "Key installed" without looking at the user name
    or the password, which are neither asked for, checked nor written.
    The key is the first file given with [--key], any further file being
    ignored, and the local public key when [-k] comes alone. *)
Theorem auth_key_options (c : Auth.collaborators) (o : Auth.opts) :
  (∀ k ks,
     Auth.key_file o = Some (k :: ks) →
     Auth.auth_parse_and_run c o
     = (Auth.Return "Key installed",
        [Auth.GetUserCredentials; Auth.InstallSshKey k])) ∧
  (Auth.user_key o = true → Auth.truthy_list (Auth.key_file o) = false →
   Auth.auth_parse_and_run c o
   = (Auth.Return "Key installed",
      [Auth.GetUserCredentials; Auth.GetLocalPublicKey;
       Auth.InstallSshKey (Auth.local_public_key c)])) ∧
  (Auth.user_key o = false → Auth.truthy_list (Auth.key_file o) = false →
   ∀ k, Auth.InstallSshKey k ∉ (Auth.auth_parse_and_run c o).2).
Proof.
  unfold Auth.auth_parse_and_run, Auth.install_ssh_key. split; [|split].
  - intros k ks ->. simpl. by rewrite orb_true_r.
  - intros -> Hfalse. simpl. by destruct (Auth.key_file o) as [[|k ks]|].
  - intros -> ->. simpl. intros k.
    destruct (Auth.truthy_str (Auth.username o)); simpl;
      [|by intros ?%elem_of_nil].
    destruct (Auth.truthy_str (Auth.password o));
      destruct (Auth.valid_credentials c _ _); simpl;
      intros Hin; repeat (apply elem_of_cons in Hin as [?|Hin]; [done|]);
      by apply elem_of_nil in Hin.
Qed.

Lemma auth_key_options_witness :
  Auth.auth_parse_and_run demo_collaborators demo_opts_keys
  = (Auth.Return "Key installed",
     [Auth.GetUserCredentials; Auth.InstallSshKey "a.pub"]) ∧
  Auth.auth_parse_and_run demo_collaborators
                          (Auth.mkOpts true None (Some "alice") None)
  = (Auth.Return "Key installed",
     [Auth.GetUserCredentials; Auth.GetLocalPublicKey;
      Auth.InstallSshKey "id_rsa.pub"]) ∧
  ∀ k, Auth.InstallSshKey k
       ∉ (Auth.auth_parse_and_run demo_collaborators demo_opts_login).2.
Proof.
  destruct (auth_key_options demo_collaborators demo_opts_keys) as [Hfirst _].
  destruct (auth_key_options demo_collaborators
                             (Auth.mkOpts true None (Some "alice") None))
    as (_ & Hlocal & _).
  destruct (auth_key_options demo_collaborators demo_opts_login)
    as (_ & _ & Hnone).
  split; [|split].
  - by apply (Hfirst "a.pub" ["b.pub"]).
  - by apply Hlocal.
  - by apply Hnone.
Defined.

(** ** Getting an experiment from the command line *)

(** Subscripting a dict by a key it does not hold raises the [KeyError]. *)
Lemma getitem_missing (d : list (string * ExperimentParser.api_method))
    (key : string) :
  key ∉ fst <$> d → ExperimentParser.getitem d key = Raise (KeyError key).
Proof.
  induction d as [|[k m] d IH]; [done|]. csimpl.
  intros [Hk Hd]%not_elem_of_cons. case_decide; [by subst|]. by apply IH.
Qed.

(** X21: [get_experiment] of [experiment_parser.py] never writes an
    archive: once [command] is rebound to the method looked up, its
    comparison with ['archive'] is false, so for every command of the
    table, ['archive'] included, the result of the API call is returned
    as it is; a command outside the table raises the [KeyError]. *)
Theorem parser_get_experiment_never_writes
    (get_current_experiment : option Z → Z)
    (api : ExperimentParser.api_method → Z → string) (command : string)
    (experiment_id : option Z) :
  (∀ value written,
     ExperimentParser.get_experiment get_current_experiment api command
                                     experiment_id
     = Ok (value, written) →
     written = [] ∧
     ∃ method,
       ExperimentParser.getitem ExperimentParser.commands command = Ok method ∧
       value = api method (get_current_experiment experiment_id)) ∧
  ExperimentParser.get_experiment get_current_experiment api "archive"
                                  experiment_id
  = Ok (api ExperimentParser.api_get_experiment_archive
            (get_current_experiment experiment_id), []) ∧
  (command ∉ fst <$> ExperimentParser.commands →
   ExperimentParser.get_experiment get_current_experiment api command
                                   experiment_id
   = Raise (KeyError command)).
Proof.
  split; [|split].
  - intros value written. unfold ExperimentParser.get_experiment.
    intros (method & Hm & Hr)%bind_Ok. simpl in Hr. injection Hr as <- <-.
    split; [done|]. by exists method.
  - reflexivity.
  - intros Hnot. unfold ExperimentParser.get_experiment.
    assert (ExperimentParser.getitem ExperimentParser.commands command
            = Raise (KeyError command)) as ->; [|done].
    by apply getitem_missing.
Qed.

Lemma parser_get_experiment_never_writes_witness :
  ([] = @nil (Z * string) ∧
   ∃ method,
     ExperimentParser.getitem ExperimentParser.commands "exp_state" = Ok method ∧
     "data" = (λ _ _, "data") method ((λ _ : option Z, 42) None)) ∧
  ExperimentParser.get_experiment (λ _, 42) (λ _ _, "data") "nonsense" None
  = Raise (KeyError "nonsense").
Proof.
  destruct (parser_get_experiment_never_writes
              (λ _, 42) (λ _ _, "data") "exp_state" None) as (Hok & _ & _).
  destruct (parser_get_experiment_never_writes
              (λ _, 42) (λ _ _, "data") "nonsense" None) as (_ & _ & Hmissing).
  split.
  - by apply (Hok "data" []).
  - apply Hmissing. by_evaluation.
Defined.
